(** * ClassVersion: the class-signature extractor

    A shallow embedding of [ClassVersion.cpp] (the filter-capable variant,
    the first of the two that the repository holds): the reflection database
    ([FieldDatabase], [ClassDatabase], [ToolDatabase]), the name filter
    [shouldVisit], the visitor callback [VisitCXXRecordDecl], the recursive
    [dump] methods and the driver [dump_tool_database].

    Conventions of the embedding:
    - [std::string] is [string]; [int] is [Z] (the sums [indent + 4] and
      [indent + 8] and the counter [iter] never leave the range of [int] on
      inputs the C++ gives a meaning to, signed overflow being undefined);
    - an output stream is the text written to it so far, and [out << s]
      appends to it;
    - a C++ reference into a vector ([m_classes.back()], [m_fields.back()])
      is the index of the element it designates. *)

From Stdlib Require Import ZArith Ascii String.
From stdpp Require Import base tactics option list strings gmap.

Local Open Scope Z_scope.

(** ** Strings and streams *)

Module Str.

(** The two characters that a Rocq literal cannot hold unescaped. *)
Definition LF : string := String "010"%char "".
Definition DQ : string := String "034"%char "".

(** [is_prefix m s]: [s] begins with [m], character for character. *)
Fixpoint is_prefix (m s : string) : bool :=
  match m, s with
  | "", _ => true
  | String _ _, "" => false
  | String a m', String b s' => if decide (a = b) then is_prefix m' s' else false
  end.

(** [std::string::find(m)] from position 0: the lowest position at which
    [m] occurs in [s], [None] standing for [std::string::npos]. *)
Fixpoint find_from (s m : string) (pos : nat) : option nat :=
  if is_prefix m s then Some pos
  else match s with
       | "" => None
       | String _ s' => find_from s' m (S pos)
       end.

Definition find (s m : string) : option nat := find_from s m 0.

(** [m] occurs in [s] as a contiguous run of characters. *)
Definition substring_of (m s : string) : Prop :=
  ∃ pre suf : string, s = pre +:+ m +:+ suf.

(** [n] blanks. *)
Fixpoint spaces (n : nat) : string :=
  match n with
  | O => ""
  | S n' => String " "%char (spaces n')
  end.

End Str.

Import Str.

Definition ostream := string.

Definition put (out : ostream) (s : string) : ostream := out +:+ s.

Notation "out << s" := (put out s) (at level 50, left associativity).

(** [appendVal(t, a, num)]: [t += a], [num] times; no iteration when [num] is
    not positive. The strings are taken as values: [t] and [a] are distinct
    objects in every call of the program (a fresh string and the literal
    blank); [appendVal_ref] below has them as references. *)
Definition appendVal (t a : string) (num : Z) : string :=
  Nat.iter (Z.to_nat num) (λ t, t +:+ a) t.

(** ** The reflection database *)

Record FieldDatabase := mkFieldDatabase {
  type : string;
  variable : string
}.

(** [FieldDatabase()]: both strings default-constructed. *)
Definition FieldDatabase_new : FieldDatabase := mkFieldDatabase "" "".

Definition set_type (v : string) (f : FieldDatabase) : FieldDatabase :=
  mkFieldDatabase v (variable f).

Definition set_variable (v : string) (f : FieldDatabase) : FieldDatabase :=
  mkFieldDatabase (type f) v.

Record ClassDatabase := mkClassDatabase {
  m_fields : list FieldDatabase;
  m_name : string
}.

(** [ClassDatabase(std::string &&name)]. *)
Definition ClassDatabase_new (name : string) : ClassDatabase :=
  mkClassDatabase [] name.

Record ToolDatabase := mkToolDatabase {
  m_classes : list ClassDatabase
}.

(** [global_tdb] at process start. *)
Definition global_tdb_init : ToolDatabase := mkToolDatabase [].

(** [ClassDatabase::addField]: the record with one more field, and the
    reference to [m_fields.back()]. *)
Definition addField (c : ClassDatabase) : ClassDatabase * nat :=
  (mkClassDatabase (m_fields c ++ [FieldDatabase_new]) (m_name c),
   length (m_fields c)).

(** [ToolDatabase::addClass]: the database with one more record, and the
    reference to [m_classes.back()]. *)
Definition addClass (t : ToolDatabase) (name : string) : ToolDatabase * nat :=
  (mkToolDatabase (m_classes t ++ [ClassDatabase_new name]),
   length (m_classes t)).

(** ** Serializer

    A C++ literal with an escape is sent here in pieces that make up the
    same bytes: an escaped line feed as [LF], an escaped double quote as
    [DQ], the characters between them as they are. *)

Definition FieldDatabase_dump (self : FieldDatabase) (out : ostream) (indent : Z)
  : ostream :=
  let indent_str := appendVal "" " " indent in
  let member_indent_str := appendVal "" " " (indent + 4) in
  let out := out << indent_str << "{" << LF in
  let out := out << member_indent_str << DQ << "type" << DQ << " : " << DQ
                 << type self << DQ << "," << LF in
  let out := out << member_indent_str << DQ << "variable" << DQ << ": " << DQ
                 << variable self << DQ in
  let out := out << LF << indent_str << "}" in
  out.

(** One turn of the loop over [m_fields]: the state is the stream and the
    counter [iter]. *)
Definition dump_fields_body (indent : Z) (st : ostream * Z) (fdb : FieldDatabase)
  : ostream * Z :=
  let '(out, iter) := st in
  let out := if 0 <? iter then out << "," << LF else out in
  let iter := iter + 1 in
  let out := FieldDatabase_dump fdb out (indent + 8) in
  (out, iter).

Definition ClassDatabase_dump (self : ClassDatabase) (out : ostream) (indent : Z)
  : ostream :=
  let indent_str := appendVal "" " " indent in
  let member_indent_str := appendVal "" " " (indent + 4) in
  let out := out << indent_str << "{" << LF in
  let out := out << member_indent_str << DQ << "name" << DQ << ": " << DQ
                 << m_name self << DQ << "," << LF in
  let out :=
    match m_fields self with
    | [] => out << member_indent_str << DQ << "fields" << DQ << ": []"
    | _ :: _ =>
        let out := out << member_indent_str << DQ << "fields" << DQ << ":" << LF in
        let out := out << member_indent_str << "[" << LF in
        let '(out, _) := foldl (dump_fields_body indent) (out, 0) (m_fields self) in
        out << LF << member_indent_str << "]"
    end in
  let out := out << LF << indent_str << "}" in
  out.

Definition dump_classes_body (indent : Z) (st : ostream * Z) (cdb : ClassDatabase)
  : ostream * Z :=
  let '(out, iter) := st in
  let out := if 0 <? iter then out << "," << LF else out in
  let iter := iter + 1 in
  let out := ClassDatabase_dump cdb out (indent + 4) in
  (out, iter).

Definition ToolDatabase_dump (self : ToolDatabase) (out : ostream) (indent : Z)
  : ostream :=
  let indent_str := appendVal "" " " indent in
  let out := out << LF << indent_str << "[" << LF in
  let '(out, _) := foldl (dump_classes_body indent) (out, 0) (m_classes self) in
  let out := out << LF << indent_str << "]" in
  out.

(** The text [dump] writes to a fresh stream. *)
Definition serialize (db : ToolDatabase) (indent : Z) : string :=
  ToolDatabase_dump db "" indent.

(** ** The declarations the syntax-tree walker hands over

    What the visitor reads from clang: of a [FieldDecl] the printed type
    ([getType().getAsString()]) and the qualified name; of a [CXXRecordDecl]
    the qualified name and the range [fields()]. *)

Record FieldDecl := mkFieldDecl {
  getTypeAsString : string;
  field_getQualifiedNameAsString : string
}.

Record CXXRecordDecl := mkCXXRecordDecl {
  getQualifiedNameAsString : string;
  fields : list FieldDecl
}.

(** ** Name filter *)

(** The loop of [shouldVisit] over [matchList]. *)
Fixpoint shouldVisit_loop (class_name : string) (ms : list string) : bool :=
  match ms with
  | [] => false
  | m :: ms' =>
      if find class_name m is Some _ then true
      else shouldVisit_loop class_name ms'
  end.

Definition shouldVisit (matchList : list string) (Declaration : CXXRecordDecl)
  : bool :=
  match matchList with
  | [] => true
  | _ :: _ =>
      let class_name := getQualifiedNameAsString Declaration in
      shouldVisit_loop class_name matchList
  end.

(** ** Traversal adapter *)

(** A method called through a reference [cdb] to a record of the database. *)
Definition at_class (cdb : nat) (f : ClassDatabase → ClassDatabase)
    (t : ToolDatabase) : ToolDatabase :=
  mkToolDatabase (alter f cdb (m_classes t)).

(** An assignment through a reference [fdb] to a field of a record. *)
Definition at_field (fdb : nat) (f : FieldDatabase → FieldDatabase)
    (c : ClassDatabase) : ClassDatabase :=
  mkClassDatabase (alter f fdb (m_fields c)) (m_name c).

(** [cdb.addField()] on the record that [cdb] refers to; the reference it
    returns is [m_fields.back()] of that record. ([cdb] comes from
    [addClass] and always designates a record; the default of [from_option]
    is never reached.) *)
Definition addField_ref (cdb : nat) (t : ToolDatabase) : ToolDatabase * nat :=
  (at_class cdb (λ c, (addField c).1) t,
   from_option (λ c, (addField c).2) O (m_classes t !! cdb)).

(** One turn of the loop over [Declaration->fields()]. *)
Definition visit_field (cdb : nat) (t : ToolDatabase) (fdcl : FieldDecl)
  : ToolDatabase :=
  let '(t, fdb) := addField_ref cdb t in
  let t := at_class cdb (at_field fdb (set_type (getTypeAsString fdcl))) t in
  let t := at_class cdb
             (at_field fdb (set_variable (field_getQualifiedNameAsString fdcl))) t in
  t.

(** The callback, on the database [global_tdb]; its C++ result, always
    [true], tells the walker to go on. *)
Definition VisitCXXRecordDecl (matchList : list string)
    (global_tdb : ToolDatabase) (Declaration : CXXRecordDecl) : ToolDatabase :=
  if negb (shouldVisit matchList Declaration) then global_tdb
  else
    let '(global_tdb, cdb) :=
      addClass global_tdb (getQualifiedNameAsString Declaration) in
    foldl (visit_field cdb) global_tdb (fields Declaration).

(** The walk: one callback per declaration, in the order the walker meets
    them. *)
Definition TraverseDecl (matchList : list string) (global_tdb : ToolDatabase)
    (events : list CXXRecordDecl) : ToolDatabase :=
  foldl (VisitCXXRecordDecl matchList) global_tdb events.

(** ** Driver *)

(** The part of the environment the driver touches: the bytes sent to
    [llvm::outs()] and [llvm::errs()], the contents of the files, whether a
    path can be opened for writing, and the log of the attempts to open. *)
Record World := mkWorld {
  outs : string;
  errs : string;
  files : gmap string string;
  can_open : string → bool;
  opened : list string
}.

(** [std::ofstream out(path)]: one attempt to open; on success the file
    exists and is empty (the default mode truncates), and the stream is
    fresh; on failure the stream is in the failed state ([None]). *)
Definition ofstream_open (path : string) (w : World) : option ostream * World :=
  if can_open w path then
    (Some "",
     mkWorld (outs w) (errs w) (<[path := ""]> (files w)) (can_open w)
             (opened w ++ [path]))
  else
    (None,
     mkWorld (outs w) (errs w) (files w) (can_open w) (opened w ++ [path])).

Definition dump_tool_database (OutputFilename : string)
    (global_tdb : ToolDatabase) (w : World) : Z * World :=
  if decide (OutputFilename = "-") then
    let o := ToolDatabase_dump global_tdb (outs w) 0 in
    let o := o << LF in
    (0, mkWorld o (errs w) (files w) (can_open w) (opened w))
  else
    match ofstream_open OutputFilename w with
    | (None, w) =>
        let e := errs w << "Failed to open output file " << OutputFilename
                        << " for writing." in
        (1, mkWorld (outs w) e (files w) (can_open w) (opened w))
    | (Some out, w) =>
        let out := ToolDatabase_dump global_tdb out 0 in
        (0, mkWorld (outs w) (errs w) (<[OutputFilename := out]> (files w))
                    (can_open w) (opened w))
    end.

(** [main], after the options are parsed: [result] is what [Tool.run]
    returned and [global_tdb] the database its walks left behind. *)
Definition main (OutputFilename : string) (result : Z)
    (global_tdb : ToolDatabase) (w : World) : Z * World :=
  if decide (result = 0) then dump_tool_database OutputFilename global_tdb w
  else (result, w).

(** ** The earlier variant

    The repository keeps an earlier version of the same program behind the
    current one: no name filter, fields written without braces of their
    own, the empty field list written as an empty quoted string, and no line
    feed after the text on the standard output. The types, [appendVal],
    [addField], [addClass], [ToolDatabase::dump] up to the record blocks,
    and [main] are the same. *)

Module Legacy.

Definition FieldDatabase_dump (self : FieldDatabase) (out : ostream) (indent : Z)
  : ostream :=
  let indent_str := appendVal "" " " indent in
  let out := out << indent_str << DQ << "type" << DQ << " : " << DQ
                 << type self << DQ << "," << LF in
  let out := out << indent_str << DQ << "variable" << DQ << ": " << DQ
                 << variable self << DQ in
  out.

Definition dump_fields_body (indent : Z) (st : ostream * Z) (fdb : FieldDatabase)
  : ostream * Z :=
  let '(out, iter) := st in
  let out := if 0 <? iter then out << "," << LF else out in
  let iter := iter + 1 in
  let out := FieldDatabase_dump fdb out (indent + 4) in
  (out, iter).

Definition ClassDatabase_dump (self : ClassDatabase) (out : ostream) (indent : Z)
  : ostream :=
  let indent_str := appendVal "" " " indent in
  let out := out << indent_str << "{" << LF in
  let out := out << indent_str << DQ << "name" << DQ << ": " << DQ
                 << m_name self << DQ << "," << LF in
  let out :=
    match m_fields self with
    | [] => out << indent_str << DQ << "fields" << DQ << ": " << DQ << DQ
    | _ :: _ =>
        let out := out << indent_str << DQ << "fields" << DQ << ":" << LF in
        let out := out << indent_str << "[" << LF in
        let '(out, _) := foldl (dump_fields_body indent) (out, 0) (m_fields self) in
        out << indent_str << LF << "]"
    end in
  let out := out << LF << indent_str << "}" in
  out.

Definition dump_classes_body (indent : Z) (st : ostream * Z) (cdb : ClassDatabase)
  : ostream * Z :=
  let '(out, iter) := st in
  let out := if 0 <? iter then out << "," << LF else out in
  let iter := iter + 1 in
  let out := ClassDatabase_dump cdb out (indent + 4) in
  (out, iter).

Definition ToolDatabase_dump (self : ToolDatabase) (out : ostream) (indent : Z)
  : ostream :=
  let indent_str := appendVal "" " " indent in
  let out := out << LF << indent_str << "[" << LF in
  let '(out, _) := foldl (dump_classes_body indent) (out, 0) (m_classes self) in
  let out := out << LF << indent_str << "]" in
  out.

Definition serialize (db : ToolDatabase) (indent : Z) : string :=
  ToolDatabase_dump db "" indent.

(** The callback without a filter. *)
Definition VisitCXXRecordDecl (global_tdb : ToolDatabase)
    (Declaration : CXXRecordDecl) : ToolDatabase :=
  let '(global_tdb, cdb) :=
    addClass global_tdb (getQualifiedNameAsString Declaration) in
  foldl (visit_field cdb) global_tdb (fields Declaration).

Definition TraverseDecl (global_tdb : ToolDatabase)
    (events : list CXXRecordDecl) : ToolDatabase :=
  foldl VisitCXXRecordDecl global_tdb events.

Definition dump_tool_database (OutputFilename : string)
    (global_tdb : ToolDatabase) (w : World) : Z * World :=
  if decide (OutputFilename = "-") then
    let o := ToolDatabase_dump global_tdb (outs w) 0 in
    (0, mkWorld o (errs w) (files w) (can_open w) (opened w))
  else
    match ofstream_open OutputFilename w with
    | (None, w) =>
        let e := errs w << "Failed to open output file " << OutputFilename
                        << " for writing." in
        (1, mkWorld (outs w) e (files w) (can_open w) (opened w))
    | (Some out, w) =>
        let out := ToolDatabase_dump global_tdb out 0 in
        (0, mkWorld (outs w) (errs w) (<[OutputFilename := out]> (files w))
                    (can_open w) (opened w))
    end.

Definition main (OutputFilename : string) (result : Z)
    (global_tdb : ToolDatabase) (w : World) : Z * World :=
  if decide (result = 0) then dump_tool_database OutputFilename global_tdb w
  else (result, w).

End Legacy.

(** * Texts and relations the statements use *)

(** ** The text a [dump] writes, in closed form

    The pieces are in the order the code sends them; [dump_*_eq] below prove
    that the streams receive exactly these. *)

Definition ind (i : Z) : string := spaces (Z.to_nat i).

Definition field_block (i : Z) (f : FieldDatabase) : string :=
  ind i +:+ "{" +:+ LF +:+
  ind (i + 4) +:+ DQ +:+ "type" +:+ DQ +:+ " : " +:+ DQ +:+ type f +:+ DQ
    +:+ "," +:+ LF +:+
  ind (i + 4) +:+ DQ +:+ "variable" +:+ DQ +:+ ": " +:+ DQ +:+ variable f
    +:+ DQ +:+ LF +:+
  ind i +:+ "}".

(** The separator that a loop sends before an element, by its counter. *)
Definition sep (iter : Z) : string := if 0 <? iter then "," +:+ LF else "".

(** What the loop over the fields of a record at [indent] appends, the
    counter starting at [iter]. *)
Fixpoint fields_text (indent iter : Z) (fs : list FieldDatabase) : string :=
  match fs with
  | [] => ""
  | f :: fs' =>
      sep iter +:+ field_block (indent + 8) f +:+ fields_text indent (iter + 1) fs'
  end.

Definition fields_entry (i : Z) (fs : list FieldDatabase) : string :=
  match fs with
  | [] => ind (i + 4) +:+ DQ +:+ "fields" +:+ DQ +:+ ": []"
  | _ :: _ =>
      ind (i + 4) +:+ DQ +:+ "fields" +:+ DQ +:+ ":" +:+ LF +:+
      ind (i + 4) +:+ "[" +:+ LF +:+
      fields_text i 0 fs +:+ LF +:+
      ind (i + 4) +:+ "]"
  end.

Definition class_block (i : Z) (c : ClassDatabase) : string :=
  ind i +:+ "{" +:+ LF +:+
  ind (i + 4) +:+ DQ +:+ "name" +:+ DQ +:+ ": " +:+ DQ +:+ m_name c +:+ DQ
    +:+ "," +:+ LF +:+
  fields_entry i (m_fields c) +:+ LF +:+
  ind i +:+ "}".

Fixpoint classes_text (indent iter : Z) (cs : list ClassDatabase) : string :=
  match cs with
  | [] => ""
  | c :: cs' =>
      sep iter +:+ class_block (indent + 4) c +:+ classes_text indent (iter + 1) cs'
  end.

Definition database_block (i : Z) (db : ToolDatabase) : string :=
  LF +:+ ind i +:+ "[" +:+ LF +:+
  classes_text i 0 (m_classes db) +:+ LF +:+
  ind i +:+ "]".

(** The field and the record that a member pair and a declaration-visit
    event stand for. *)
Definition field_of (fdcl : FieldDecl) : FieldDatabase :=
  mkFieldDatabase (getTypeAsString fdcl) (field_getQualifiedNameAsString fdcl).

Definition record_of (d : CXXRecordDecl) : ClassDatabase :=
  mkClassDatabase (field_of <$> fields d) (getQualifiedNameAsString d).

Definition push_field (f : FieldDatabase) (c : ClassDatabase) : ClassDatabase :=
  mkClassDatabase (m_fields c ++ [f]) (m_name c).

(** ** Reading the written text *)

(** [s] between double quotes, nothing escaped. *)
Definition quoted (s : string) : string := DQ +:+ s +:+ DQ.

(** The lines of a text: the runs between its line feeds. *)
Fixpoint lines (s : string) : list string :=
  match s with
  | "" => [""]
  | String a s' =>
      if decide (a = "010"%char) then "" :: lines s'
      else match lines s' with
           | l :: ls => String a l :: ls
           | [] => [String a ""]
           end
  end.

(** The indentation of a line: the number of blanks it begins with. *)
Fixpoint leading_spaces (l : string) : nat :=
  match l with
  | String a l' => if decide (a = " "%char) then S (leading_spaces l') else O
  | "" => O
  end.

(** A bracket, then the closing bracket on the very next line, behind
    blanks only. *)
Definition closes_on_following_line (text : string) : Prop :=
  ∃ (pre : string) (k : nat) (suf : string),
    text = pre +:+ "[" +:+ LF +:+ spaces k +:+ "]" +:+ suf.

(** ** The scenario with one record *)

Definition foo_event : CXXRecordDecl :=
  mkCXXRecordDecl "Foo" [mkFieldDecl "int" "Foo::x"].

Definition foo_db : ToolDatabase :=
  mkToolDatabase [mkClassDatabase [mkFieldDatabase "int" "Foo::x"] "Foo"].

(** The text of a database of one record with one field, at base indent 0. *)
Definition one_field_text (name ty var : string) : string :=
  LF +:+
  "[" +:+ LF +:+
  "    {" +:+ LF +:+
  "        " +:+ quoted "name" +:+ ": " +:+ quoted name +:+ "," +:+ LF +:+
  "        " +:+ quoted "fields" +:+ ":" +:+ LF +:+
  "        [" +:+ LF +:+
  "            {" +:+ LF +:+
  "                " +:+ quoted "type" +:+ " : " +:+ quoted ty +:+ "," +:+ LF +:+
  "                " +:+ quoted "variable" +:+ ": " +:+ quoted var +:+ LF +:+
  "            }" +:+ LF +:+
  "        ]" +:+ LF +:+
  "    }" +:+ LF +:+
  "]".

(** ** The message of the driver *)

Definition open_failure_message (path : string) : string :=
  "Failed to open output file " +:+ path +:+ " for writing.".

(** A machine where only [out.json] can be
    opened for writing and already holds text. *)
Definition sample_world : World :=
  mkWorld "" "" {[ "out.json" := "stale" ]}
          (λ p, bool_decide (p = "out.json")) [].

(** ** Indentation *)

(** No line feed in the string. *)
Fixpoint newline_free (s : string) : bool :=
  match s with
  | "" => true
  | String a s' => bool_decide (a ≠ "010"%char) && newline_free s'
  end.

Definition field_newline_free (f : FieldDatabase) : bool :=
  newline_free (type f) && newline_free (variable f).

Definition record_newline_free (c : ClassDatabase) : bool :=
  newline_free (m_name c) && forallb field_newline_free (m_fields c).

Definition database_newline_free (db : ToolDatabase) : bool :=
  forallb record_newline_free (m_classes db).

(** The string begins with a character that is neither a blank nor a line
    feed. *)
Definition starts_nonblank (s : string) : bool :=
  match s with
  | "" => false
  | String a _ => bool_decide (a ≠ " "%char) && bool_decide (a ≠ "010"%char)
  end.

(** The indentation of every line of a text, from the first line on. *)
Definition indentation (text : string) : list nat :=
  leading_spaces <$> lines text.

(** The lines of a field block whose braces stand at column [k]: the brace,
    the two entries, the brace. *)
Definition field_profile (k : nat) : list nat :=
  [k; k + 4; k + 4; k]%nat.

(** The lines of the [fields] entry of a record whose braces stand at column
    [k]: one line in the body of the record when there is no field; else the
    key and the opening bracket, the field blocks 4 columns further in than
    the body of the record, and the closing bracket. *)
Definition fields_entry_profile (k : nat) (fs : list FieldDatabase) : list nat :=
  match fs with
  | [] => [k + 4]%nat
  | _ :: _ =>
      [k + 4; k + 4]%nat
      ++ flat_map (λ _, field_profile (k + 4 + 4)) fs
      ++ [k + 4]%nat
  end.

(** The lines of a record block whose braces stand at column [k]: the
    brace, the body (the entry of the name and the entry of the fields) 4
    columns further in, the brace. *)
Definition record_profile (k : nat) (c : ClassDatabase) : list nat :=
  [k; k + 4]%nat ++ fields_entry_profile k (m_fields c) ++ [k].

(** The lines of the text of a database at base indent [n]: the empty first
    line, the bracket, the record blocks 4 columns further in (one empty
    line when there is no record), the bracket. *)
Definition database_profile (n : nat) (db : ToolDatabase) : list nat :=
  [0; n]%nat
  ++ match m_classes db with
     | [] => [0%nat]
     | _ :: _ => flat_map (record_profile (n + 4)) (m_classes db)
     end
  ++ [n].

(** A database of two records, the second without fields. *)
Definition sample_db : ToolDatabase :=
  mkToolDatabase
    [mkClassDatabase
       [mkFieldDatabase "int" "Foo::x"; mkFieldDatabase "char" "Foo::y"] "Foo";
     ClassDatabase_new "E"].

(** ** Inputs outside the domain of the indentation *)

(** One record without fields, its name in two lines. *)
Definition newline_db : ToolDatabase :=
  mkToolDatabase [ClassDatabase_new ("A" +:+ LF +:+ "B")].

(** ** Counting and excluding characters *)

(** The number of occurrences of the character [c] in [s]. *)
Fixpoint count_char (c : ascii) (s : string) : nat :=
  match s with
  | "" => O
  | String a s' => ((if Ascii.eqb a c then 1 else 0) + count_char c s')%nat
  end.

(** The occurrences of [c] in the strings a database holds. *)
Definition field_count (c : ascii) (f : FieldDatabase) : nat :=
  (count_char c (type f) + count_char c (variable f))%nat.

Definition record_count (c : ascii) (r : ClassDatabase) : nat :=
  (count_char c (m_name r) + sum_list (field_count c <$> m_fields r))%nat.

Definition database_count (c : ascii) (db : ToolDatabase) : nat :=
  sum_list (record_count c <$> m_classes db).

(** The number of fields of all the records. *)
Definition total_fields (db : ToolDatabase) : nat :=
  sum_list ((λ r, length (m_fields r)) <$> m_classes db).

(** No double quote in the string. *)
Fixpoint quote_free (s : string) : bool :=
  match s with
  | "" => true
  | String a s' => negb (Ascii.eqb a "034"%char) && quote_free s'
  end.

Definition field_quote_free (f : FieldDatabase) : bool :=
  quote_free (type f) && quote_free (variable f).

Definition record_quote_free (c : ClassDatabase) : bool :=
  quote_free (m_name c) && forallb field_quote_free (m_fields c).

Definition database_quote_free (db : ToolDatabase) : bool :=
  forallb record_quote_free (m_classes db).

(** The text that stands between the names of two neighbouring records
    without fields in the text of a database at base indent [i]. *)
Definition record_glue (i : Z) : string :=
  DQ +:+ "," +:+ LF +:+
  ind (i + 4 + 4) +:+ DQ +:+ "fields" +:+ DQ +:+ ": []" +:+ LF +:+
  ind (i + 4) +:+ "}" +:+ "," +:+ LF +:+
  ind (i + 4) +:+ "{" +:+ LF +:+
  ind (i + 4 + 4) +:+ DQ +:+ "name" +:+ DQ +:+ ": " +:+ DQ.

(** ** The text the earlier variant writes, in closed form *)

Definition legacy_field_block (i : Z) (f : FieldDatabase) : string :=
  ind i +:+ DQ +:+ "type" +:+ DQ +:+ " : " +:+ DQ +:+ type f +:+ DQ
    +:+ "," +:+ LF +:+
  ind i +:+ DQ +:+ "variable" +:+ DQ +:+ ": " +:+ DQ +:+ variable f +:+ DQ.

Fixpoint legacy_fields_text (indent iter : Z) (fs : list FieldDatabase) : string :=
  match fs with
  | [] => ""
  | f :: fs' =>
      sep iter +:+ legacy_field_block (indent + 4) f
        +:+ legacy_fields_text indent (iter + 1) fs'
  end.

Definition legacy_fields_entry (i : Z) (fs : list FieldDatabase) : string :=
  match fs with
  | [] => ind i +:+ DQ +:+ "fields" +:+ DQ +:+ ": " +:+ DQ +:+ DQ
  | _ :: _ =>
      ind i +:+ DQ +:+ "fields" +:+ DQ +:+ ":" +:+ LF +:+
      ind i +:+ "[" +:+ LF +:+
      legacy_fields_text i 0 fs +:+
      ind i +:+ LF +:+ "]"
  end.

Definition legacy_class_block (i : Z) (c : ClassDatabase) : string :=
  ind i +:+ "{" +:+ LF +:+
  ind i +:+ DQ +:+ "name" +:+ DQ +:+ ": " +:+ DQ +:+ m_name c +:+ DQ
    +:+ "," +:+ LF +:+
  legacy_fields_entry i (m_fields c) +:+ LF +:+
  ind i +:+ "}".

Fixpoint legacy_classes_text (indent iter : Z) (cs : list ClassDatabase) : string :=
  match cs with
  | [] => ""
  | c :: cs' =>
      sep iter +:+ legacy_class_block (indent + 4) c
        +:+ legacy_classes_text indent (iter + 1) cs'
  end.

Definition legacy_database_block (i : Z) (db : ToolDatabase) : string :=
  LF +:+ ind i +:+ "[" +:+ LF +:+
  legacy_classes_text i 0 (m_classes db) +:+ LF +:+
  ind i +:+ "]".

(** ** [appendVal] on objects

    The template takes [t] and [a] by reference. Here the objects are the
    places of a store of strings, and one turn of the loop is [t += a] on
    the strings found there: when [t] and [a] are one object, the turn
    appends the string to itself. The program only calls [appendVal] on a
    fresh string and the literal blank, two objects. *)



(** * Properties *)

(** ** Strings *)

Lemma sapp_nil_r (s : string) : s +:+ "" = s.
Proof.
  induction s as [|a s IH]; [done|].
  change (String a (s +:+ "") = String a s). by rewrite IH.
Qed.

Lemma sapp_assoc (s1 s2 s3 : string) : s1 +:+ s2 +:+ s3 = (s1 +:+ s2) +:+ s3.
Proof.
  induction s1 as [|a s1 IH]; [done|].
  change (String a (s1 +:+ s2 +:+ s3) = String a ((s1 +:+ s2) +:+ s3)).
  by rewrite IH.
Qed.

Lemma slength_app (s1 s2 : string) :
  String.length (s1 +:+ s2) = (String.length s1 + String.length s2)%nat.
Proof.
  induction s1 as [|a s1 IH]; [done|].
  change (S (String.length (s1 +:+ s2)) = S (String.length s1 + String.length s2)).
  by rewrite IH.
Qed.

Lemma sapp_cons (a : ascii) (s1 s2 : string) :
  String a s1 +:+ s2 = String a (s1 +:+ s2).
Proof. done. Qed.

(** ** What the [dump] methods append *)

Lemma spaces_snoc (n : nat) : spaces n +:+ " " = spaces (S n).
Proof.
  induction n as [|n IH]; [done|].
  change (String " "%char (spaces n +:+ " ") = String " "%char (spaces (S n))).
  by rewrite IH.
Qed.

Lemma appendVal_app (t : string) (num : Z) :
  appendVal t " " num = t +:+ ind num.
Proof.
  unfold appendVal, ind. induction (Z.to_nat num) as [|n IH].
  - by rewrite sapp_nil_r.
  - rewrite Nat.iter_succ, IH, <- sapp_assoc, spaces_snoc. done.
Qed.

Lemma appendVal_spaces (i : Z) : appendVal "" " " i = ind i.
Proof. apply appendVal_app. Qed.

(** Streams are compared with the appends nested to the right. *)
Ltac norm_stream :=
  unfold put; rewrite ?appendVal_spaces; rewrite <- ?sapp_assoc.

Lemma FieldDatabase_dump_eq (f : FieldDatabase) (out : ostream) (i : Z) :
  FieldDatabase_dump f out i = out +:+ field_block i f.
Proof. unfold FieldDatabase_dump, field_block. norm_stream. done. Qed.

Lemma dump_fields_loop (indent : Z) (fs : list FieldDatabase) :
  ∀ (out : ostream) (iter : Z),
    foldl (dump_fields_body indent) (out, iter) fs
    = (out +:+ fields_text indent iter fs, iter + Z.of_nat (length fs)).
Proof.
  induction fs as [|f fs IH]; intros out iter.
  - cbn [foldl fields_text length]. rewrite sapp_nil_r. f_equal. lia.
  - cbn [foldl fields_text length]. unfold dump_fields_body at 2.
    rewrite IH, FieldDatabase_dump_eq. f_equal; [|lia].
    unfold sep. destruct (0 <? iter); norm_stream; done.
Qed.

Lemma ClassDatabase_dump_eq (c : ClassDatabase) (out : ostream) (i : Z) :
  ClassDatabase_dump c out i = out +:+ class_block i c.
Proof.
  unfold ClassDatabase_dump, class_block, fields_entry.
  destruct (m_fields c) as [|f fs] eqn:Hfs.
  - norm_stream. done.
  - rewrite dump_fields_loop. norm_stream. done.
Qed.

Lemma dump_classes_loop (indent : Z) (cs : list ClassDatabase) :
  ∀ (out : ostream) (iter : Z),
    foldl (dump_classes_body indent) (out, iter) cs
    = (out +:+ classes_text indent iter cs, iter + Z.of_nat (length cs)).
Proof.
  induction cs as [|c cs IH]; intros out iter.
  - cbn [foldl classes_text length]. rewrite sapp_nil_r. f_equal. lia.
  - cbn [foldl classes_text length]. unfold dump_classes_body at 2.
    rewrite IH, ClassDatabase_dump_eq. f_equal; [|lia].
    unfold sep. destruct (0 <? iter); norm_stream; done.
Qed.

Lemma ToolDatabase_dump_eq (db : ToolDatabase) (out : ostream) (i : Z) :
  ToolDatabase_dump db out i = out +:+ database_block i db.
Proof.
  unfold ToolDatabase_dump, database_block.
  rewrite dump_classes_loop. norm_stream. done.
Qed.

Lemma serialize_eq (db : ToolDatabase) (i : Z) :
  serialize db i = database_block i db.
Proof. unfold serialize. by rewrite ToolDatabase_dump_eq. Qed.

(** C7. Serialization is deterministic: what [dump] appends to a stream is
    the text [serialize db indent], whatever the stream held before; so two
    runs on the same database with the same base indent, on two streams or
    one after the other on one stream, write the same bytes. *)
Theorem serialize_deterministic (db : ToolDatabase) (indent : Z)
    (out1 out2 : ostream) :
  ToolDatabase_dump db out1 indent = out1 +:+ serialize db indent
  ∧ ToolDatabase_dump db out2 indent = out2 +:+ serialize db indent
  ∧ ToolDatabase_dump db (ToolDatabase_dump db out1 indent) indent
    = out1 +:+ serialize db indent +:+ serialize db indent.
Proof.
  rewrite !ToolDatabase_dump_eq, serialize_eq, <- sapp_assoc. done.
Qed.

(** ** Name filter *)

Section find_spec.

Lemma is_prefix_spec (m s : string) :
  is_prefix m s = true ↔ ∃ suf, s = m +:+ suf.
Proof.
  revert s. induction m as [|a m IH]; intros s.
  - split; [intros _; by exists s | done].
  - destruct s as [|b s]; cbn [is_prefix].
    + split; [done | intros [suf Hsuf]; discriminate Hsuf].
    + destruct (decide (a = b)) as [->|Hab].
      * rewrite IH. split; intros [suf Hsuf]; exists suf.
        -- by rewrite Hsuf.
        -- by injection Hsuf.
      * split; [done | intros [suf Hsuf]]. injection Hsuf as Hb _. congruence.
Qed.

Lemma find_from_spec (s m : string) :
  ∀ pos, is_Some (find_from s m pos) ↔ substring_of m s.
Proof.
  induction s as [|a s IH]; intros pos; cbn [find_from].
  - destruct (is_prefix m "") eqn:Hp.
    + apply is_prefix_spec in Hp as [suf Hsuf].
      split; [intros _; by exists "", suf | eauto].
    + split; [by intros [? ?] | intros [pre [suf Heq]]].
      destruct pre; [|discriminate Heq].
      assert (is_prefix m "" = true) by (apply is_prefix_spec; eauto).
      congruence.
  - destruct (is_prefix m (String a s)) eqn:Hp.
    + apply is_prefix_spec in Hp as [suf Hsuf].
      split; [intros _; by exists "", suf | eauto].
    + rewrite IH. split; intros [pre [suf Heq]].
      * exists (String a pre), suf. by rewrite Heq.
      * destruct pre as [|b pre].
        -- assert (is_prefix m (String a s) = true)
             by (apply is_prefix_spec; eauto).
           congruence.
        -- injection Heq as _ Heq. by exists pre, suf.
Qed.

Lemma find_spec (s m : string) : is_Some (find s m) ↔ substring_of m s.
Proof. apply find_from_spec. Qed.

End find_spec.

Lemma shouldVisit_loop_spec (class_name : string) (ms : list string) :
  shouldVisit_loop class_name ms = true
  ↔ ∃ p, p ∈ ms ∧ substring_of p class_name.
Proof.
  induction ms as [|m ms IH]; cbn [shouldVisit_loop].
  - split; [done | intros (p & Hp & _)]. by apply elem_of_nil in Hp.
  - destruct (find class_name m) as [r|] eqn:Hf.
    + split; [intros _ | done]. exists m. split; [left|].
      apply find_spec. by rewrite Hf.
    + rewrite IH. split; intros (p & Hp & Hsub).
      * exists p. split; [by right | done].
      * apply elem_of_cons in Hp as [->|Hp]; [|by exists p].
        apply find_spec in Hsub. rewrite Hf in Hsub. by destruct Hsub.
Qed.

(** C1. With an empty pattern list the filter accepts every declaration;
    with a non-empty list it accepts a declaration exactly when one of the
    patterns occurs in its qualified name as a contiguous run of characters,
    compared character by character (so with case). Under the list
    [["Foo"]], "Foo" and "NsFoo::Baz" pass and "Bar" does not, nor does
    "foo". *)
Theorem shouldVisit_spec :
  (∀ d : CXXRecordDecl, shouldVisit [] d = true)
  ∧ (∀ (m : string) (ms : list string) (d : CXXRecordDecl),
       shouldVisit (m :: ms) d = true
       ↔ ∃ p, p ∈ m :: ms ∧ substring_of p (getQualifiedNameAsString d))
  ∧ (∀ fs : list FieldDecl,
       shouldVisit ["Foo"] (mkCXXRecordDecl "Foo" fs) = true
       ∧ shouldVisit ["Foo"] (mkCXXRecordDecl "NsFoo::Baz" fs) = true
       ∧ shouldVisit ["Foo"] (mkCXXRecordDecl "Bar" fs) = false
       ∧ shouldVisit ["Foo"] (mkCXXRecordDecl "foo" fs) = false).
Proof.
  split; [done|]. split; [|done].
  intros m ms d. unfold shouldVisit. apply shouldVisit_loop_spec.
Qed.

Lemma shouldVisit_spec_witness :
  shouldVisit ["Foo"] (mkCXXRecordDecl "NsFoo::Baz" []) = true.
Proof.
  apply (proj1 (proj2 shouldVisit_spec) "Foo" []
           (mkCXXRecordDecl "NsFoo::Baz" [])).
  exists "Foo". split; [by left | by exists "Ns", "::Baz"].
Defined.

(** ** Traversal adapter *)

Lemma visit_field_eq (cdb : nat) (t : ToolDatabase) (fdcl : FieldDecl) :
  m_classes (visit_field cdb t fdcl)
  = alter (push_field (field_of fdcl)) cdb (m_classes t).
Proof.
  unfold visit_field, addField_ref, at_class. cbn [m_classes].
  rewrite !list_alter_alter_eq. apply list_alter_ext; [|done].
  intros c Hc. rewrite Hc. cbn. unfold at_field, push_field. cbn.
  f_equal. rewrite list_alter_alter_eq.
  rewrite alter_app_r_alt by lia. rewrite Nat.sub_diag. done.
Qed.

Lemma visit_fields_last (cs : list ClassDatabase) (fdcls : list FieldDecl) :
  ∀ (t : ToolDatabase) (c : ClassDatabase),
    m_classes t = cs ++ [c] →
    m_classes (foldl (visit_field (length cs)) t fdcls)
    = cs ++ [mkClassDatabase (m_fields c ++ (field_of <$> fdcls)) (m_name c)].
Proof.
  induction fdcls as [|fdcl fdcls IH]; intros t c Ht; cbn [foldl fmap list_fmap].
  - rewrite Ht, app_nil_r. by destruct c.
  - erewrite IH.
    2:{ rewrite visit_field_eq, Ht.
        rewrite alter_app_r_alt by lia. rewrite Nat.sub_diag. done. }
    cbn. by rewrite <- app_assoc.
Qed.

Lemma VisitCXXRecordDecl_eq (ml : list string) (t : ToolDatabase)
    (d : CXXRecordDecl) :
  m_classes (VisitCXXRecordDecl ml t d)
  = if shouldVisit ml d then m_classes t ++ [record_of d] else m_classes t.
Proof.
  unfold VisitCXXRecordDecl. destruct (shouldVisit ml d); [|done].
  cbn [negb addClass].
  by rewrite (visit_fields_last (m_classes t) (fields d)
                (mkToolDatabase (m_classes t ++ [ClassDatabase_new _]))
                (ClassDatabase_new (getQualifiedNameAsString d)) eq_refl).
Qed.

Lemma TraverseDecl_eq (ml : list string) (events : list CXXRecordDecl) :
  ∀ t : ToolDatabase,
    m_classes (TraverseDecl ml t events)
    = m_classes t ++ (record_of <$> List.filter (shouldVisit ml) events).
Proof.
  unfold TraverseDecl.
  induction events as [|d events IH]; intros t; cbn [foldl List.filter].
  - by rewrite app_nil_r.
  - rewrite IH, VisitCXXRecordDecl_eq.
    destruct (shouldVisit ml d); [|done]. by rewrite <- app_assoc.
Qed.

(** C2. After the walk the database holds, behind what it held before, one
    record per event that passes the filter, in the order of those events,
    and nothing for the others; the record of an event carries its
    qualified name and one field per member pair, in the order of the
    pairs. On the database of a fresh process the records are exactly
    those. *)
Theorem TraverseDecl_spec (matchList : list string)
    (events : list CXXRecordDecl) (t : ToolDatabase) :
  m_classes (TraverseDecl matchList t events)
    = m_classes t ++ (record_of <$> List.filter (shouldVisit matchList) events)
  ∧ m_classes (TraverseDecl matchList global_tdb_init events)
    = record_of <$> List.filter (shouldVisit matchList) events
  ∧ length (m_classes (TraverseDecl matchList global_tdb_init events))
    = length (List.filter (shouldVisit matchList) events)
  ∧ (∀ d : CXXRecordDecl,
       m_classes (VisitCXXRecordDecl matchList t d)
       = if shouldVisit matchList d then m_classes t ++ [record_of d]
         else m_classes t)
  ∧ (∀ d : CXXRecordDecl,
       m_name (record_of d) = getQualifiedNameAsString d
       ∧ length (m_fields (record_of d)) = length (fields d)
       ∧ ∀ j : nat,
           m_fields (record_of d) !! j
           = (λ p, mkFieldDatabase (getTypeAsString p)
                     (field_getQualifiedNameAsString p)) <$> fields d !! j).
Proof.
  split; [apply TraverseDecl_eq|].
  split; [by rewrite TraverseDecl_eq|].
  split; [rewrite TraverseDecl_eq; apply length_fmap|].
  split; [intros d; apply VisitCXXRecordDecl_eq|].
  intros d. split; [done|]. split; [apply length_fmap|].
  intros j. apply list_lookup_fmap.
Qed.

(** ** Appending never disturbs what is there *)

Lemma alter_grow (f : ClassDatabase → ClassDatabase) (cdb : nat)
    (cs : list ClassDatabase) (i : nat) (c : ClassDatabase) :
  (∀ c0, m_name (f c0) = m_name c0 ∧ m_fields c0 `prefix_of` m_fields (f c0)) →
  cs !! i = Some c →
  ∃ c', alter f cdb cs !! i = Some c'
        ∧ m_name c' = m_name c
        ∧ m_fields c `prefix_of` m_fields c'
        ∧ (i ≠ cdb → c' = c).
Proof.
  intros Hf Hi. destruct (decide (cdb = i)) as [->|Hne].
  - exists (f c). rewrite list_lookup_alter_eq, Hi.
    destruct (Hf c) as [Hn Hp]. done.
  - exists c. by rewrite list_lookup_alter_ne.
Qed.

Lemma VisitCXXRecordDecl_prefix (ml : list string) (t : ToolDatabase)
    (d : CXXRecordDecl) :
  m_classes t `prefix_of` m_classes (VisitCXXRecordDecl ml t d).
Proof.
  rewrite VisitCXXRecordDecl_eq. destruct (shouldVisit ml d); [|done].
  by apply prefix_app_r.
Qed.

(** C8. [addClass] puts the new record behind the ones present and
    [addField] the new field behind the ones present, everything before
    them as it was. Adding a field through a reference to a record of the
    database (the visitor holds one to the record it added last), and
    filling in that field, keeps every record in its place, changes no
    other record, and keeps the name and the earlier fields of that one.
    Hence the records present before a callback, or before a whole walk,
    are a prefix of the records present after it. *)
Theorem append_frame :
  (∀ (t : ToolDatabase) (name : string),
     m_classes (addClass t name).1 = m_classes t ++ [ClassDatabase_new name]
     ∧ (addClass t name).2 = length (m_classes t))
  ∧ (∀ c : ClassDatabase,
       m_fields (addField c).1 = m_fields c ++ [FieldDatabase_new]
       ∧ m_name (addField c).1 = m_name c
       ∧ (addField c).2 = length (m_fields c))
  ∧ (∀ (cdb : nat) (t : ToolDatabase) (i : nat) (c : ClassDatabase),
       m_classes t !! i = Some c →
       ∃ c', m_classes (addField_ref cdb t).1 !! i = Some c'
             ∧ m_name c' = m_name c
             ∧ m_fields c `prefix_of` m_fields c'
             ∧ (i ≠ cdb → c' = c))
  ∧ (∀ (cdb : nat) (t : ToolDatabase) (fdcl : FieldDecl) (i : nat)
       (c : ClassDatabase),
       m_classes t !! i = Some c →
       ∃ c', m_classes (visit_field cdb t fdcl) !! i = Some c'
             ∧ m_name c' = m_name c
             ∧ m_fields c `prefix_of` m_fields c'
             ∧ (i ≠ cdb → c' = c))
  ∧ (∀ (cdb : nat) (t : ToolDatabase) (fdcl : FieldDecl),
       length (m_classes (visit_field cdb t fdcl)) = length (m_classes t))
  ∧ (∀ (ml : list string) (t : ToolDatabase) (d : CXXRecordDecl),
       m_classes t `prefix_of` m_classes (VisitCXXRecordDecl ml t d))
  ∧ (∀ (ml : list string) (t : ToolDatabase) (events : list CXXRecordDecl),
       m_classes t `prefix_of` m_classes (TraverseDecl ml t events)).
Proof.
  split; [done|]. split; [done|].
  split.
  { intros cdb t i c Hi. unfold addField_ref, at_class. cbn [fst m_classes].
    apply alter_grow; [|done]. intros c0. split; [done|].
    by apply prefix_app_r. }
  split.
  { intros cdb t fdcl i c Hi. rewrite visit_field_eq.
    apply alter_grow; [|done]. intros c0. split; [done|].
    by apply prefix_app_r. }
  split.
  { intros cdb t fdcl. by rewrite visit_field_eq, length_alter. }
  split; [apply VisitCXXRecordDecl_prefix|].
  intros ml t events. rewrite TraverseDecl_eq. by apply prefix_app_r.
Qed.

(** A run of the frame property: a field added to the second of two records
    leaves the first as it was. *)
Lemma append_frame_witness :
  ∃ c', m_classes
          (visit_field 1
             (mkToolDatabase
                [mkClassDatabase [mkFieldDatabase "int" "A::x"] "A";
                 ClassDatabase_new "B"])
             (mkFieldDecl "char" "B::y")) !! 0%nat = Some c'
        ∧ m_name c' = "A"
        ∧ [mkFieldDatabase "int" "A::x"] `prefix_of` m_fields c'
        ∧ (0%nat ≠ 1%nat → c' = mkClassDatabase [mkFieldDatabase "int" "A::x"] "A").
Proof.
  exact (proj1 (proj2 (proj2 (proj2 append_frame))) 1%nat
           (mkToolDatabase
              [mkClassDatabase [mkFieldDatabase "int" "A::x"] "A";
               ClassDatabase_new "B"])
           (mkFieldDecl "char" "B::y") 0%nat
           (mkClassDatabase [mkFieldDatabase "int" "A::x"] "A") eq_refl).
Defined.

(** ** The serializer on given databases *)

(** C3, as the claim has it, fails: the text of the empty database at base
    indent 0 does not have its closing bracket on the line after the opening
    one. *)
Lemma empty_database_not_adjacent :
  ¬ closes_on_following_line (serialize global_tdb_init 0).
Proof.
  intros (pre & k & suf & H).
  assert (Hs : serialize global_tdb_init 0
               = String "010" (String "[" (String "010" (String "010"
                   (String "]" ""))))) by reflexivity.
  rewrite Hs in H. clear Hs.
  do 5 (destruct pre as [|? pre];
        [ cbv [String.append LF] in H; try discriminate H;
          injection H as H; destruct k; discriminate H
        | rewrite sapp_cons in H; injection H as _ H ]).
  destruct pre; discriminate H.
Qed.

(** C3, amended. The text of an empty database is a line feed, the opening
    bracket behind the base indent, an empty line, and the closing bracket
    behind the base indent: the closing bracket stands two lines below the
    opening one, with no record between them. *)
Theorem serialize_empty_spec (indent : Z) (out : ostream) :
  ToolDatabase_dump (mkToolDatabase []) out indent
  = out +:+ LF +:+ spaces (Z.to_nat indent) +:+ "[" +:+ LF
        +:+ LF +:+ spaces (Z.to_nat indent) +:+ "]"
  ∧ lines (serialize global_tdb_init 0) = [""; "["; ""; "]"].
Proof.
  split; [|done]. by rewrite ToolDatabase_dump_eq.
Qed.

Lemma one_field_serialize (name ty var : string) :
  serialize (mkToolDatabase [mkClassDatabase [mkFieldDatabase ty var] name]) 0
  = one_field_text name ty var.
Proof.
  rewrite serialize_eq.
  unfold database_block, classes_text, class_block, fields_entry, fields_text,
    field_block, one_field_text, quoted, sep, ind.
  cbn [m_classes m_fields m_name type variable Z.ltb Z.compare Z.add Z.to_nat
       Pos.to_nat Pos.iter_op Pos.add Pos.succ Nat.add spaces].
  rewrite <- ?sapp_assoc. done.
Qed.

(** C4. The walk over the one declaration [Foo] with the member [int Foo::x]
    leaves the database of the scenario, and its text at base indent 0 is
    the block below; it holds the entry of the name, and in the array of
    fields one object with the two entries of the field. For whatever name,
    type and variable, these strings stand in the text as they are. *)
Theorem foo_scenario :
  TraverseDecl [] global_tdb_init [foo_event] = foo_db
  ∧ serialize foo_db 0 = one_field_text "Foo" "int" "Foo::x"
  ∧ substring_of (quoted "name" +:+ ": " +:+ quoted "Foo") (serialize foo_db 0)
  ∧ substring_of
      (quoted "fields" +:+ ":" +:+ LF +:+ "        [" +:+ LF +:+
       "            {" +:+ LF +:+
       "                " +:+ quoted "type" +:+ " : " +:+ quoted "int" +:+ ","
         +:+ LF +:+
       "                " +:+ quoted "variable" +:+ ": " +:+ quoted "Foo::x"
         +:+ LF +:+
       "            }" +:+ LF +:+ "        ]")
      (serialize foo_db 0)
  ∧ (∀ name ty var : string,
       serialize
         (mkToolDatabase [mkClassDatabase [mkFieldDatabase ty var] name]) 0
       = one_field_text name ty var).
Proof.
  split; [done|]. split; [apply one_field_serialize|].
  split; [apply find_spec; vm_compute; eauto|].
  split; [apply find_spec; vm_compute; eauto|].
  apply one_field_serialize.
Qed.

(** C5. A record without fields is written with the empty array as the
    value of its [fields] entry: after the entry of the name come the key,
    a colon, a blank and the two brackets, then the closing brace; it is
    neither the text with an empty quoted string in that place nor the one
    with [null]. *)
Theorem empty_fields_array (c : ClassDatabase) (out : ostream) (indent : Z) :
  m_fields c = [] →
  let head :=
    out +:+ spaces (Z.to_nat indent) +:+ "{" +:+ LF +:+
    spaces (Z.to_nat (indent + 4)) +:+ quoted "name" +:+ ": "
      +:+ quoted (m_name c) +:+ "," +:+ LF +:+
    spaces (Z.to_nat (indent + 4)) +:+ quoted "fields" +:+ ": " in
  let tail := LF +:+ spaces (Z.to_nat indent) +:+ "}" in
  ClassDatabase_dump c out indent = head +:+ "[]" +:+ tail
  ∧ ClassDatabase_dump c out indent ≠ head +:+ quoted "" +:+ tail
  ∧ ClassDatabase_dump c out indent ≠ head +:+ "null" +:+ tail.
Proof.
  intros Hfs head tail.
  assert (Heq : ClassDatabase_dump c out indent = head +:+ "[]" +:+ tail).
  { rewrite ClassDatabase_dump_eq. unfold class_block, fields_entry.
    rewrite Hfs. unfold head, tail, quoted, ind. rewrite <- ?sapp_assoc. done. }
  split; [done|]. rewrite Heq.
  split; intros H; apply (inj (String.app head)) in H; discriminate H.
Qed.

Lemma empty_fields_array_witness :
  ClassDatabase_dump (ClassDatabase_new "E") "" 4
  = ("" +:+ spaces 4 +:+ "{" +:+ LF +:+
     spaces 8 +:+ quoted "name" +:+ ": " +:+ quoted "E" +:+ "," +:+ LF +:+
     spaces 8 +:+ quoted "fields" +:+ ": ") +:+ "[]" +:+ LF +:+ spaces 4 +:+ "}".
Proof.
  exact (proj1 (empty_fields_array (ClassDatabase_new "E") "" 4 eq_refl)).
Defined.

(** ** Driver *)

Lemma dump_tool_database_stdout (db : ToolDatabase) (w : World) :
  dump_tool_database "-" db w
  = (0, mkWorld (outs w +:+ serialize db 0 +:+ LF) (errs w) (files w)
                (can_open w) (opened w)).
Proof.
  unfold dump_tool_database.
  rewrite decide_True by done.
  rewrite ToolDatabase_dump_eq, serialize_eq. unfold put.
  by rewrite <- sapp_assoc.
Qed.

Lemma dump_tool_database_file (path : string) (db : ToolDatabase) (w : World) :
  path ≠ "-" → can_open w path = true →
  dump_tool_database path db w
  = (0, mkWorld (outs w) (errs w) (<[path := serialize db 0]> (files w))
                (can_open w) (opened w ++ [path])).
Proof.
  intros Hp Ho. unfold dump_tool_database, ofstream_open.
  rewrite decide_False by done. rewrite Ho. cbn.
  by rewrite insert_insert_eq.
Qed.

Lemma dump_tool_database_fail (path : string) (db : ToolDatabase) (w : World) :
  path ≠ "-" → can_open w path = false →
  dump_tool_database path db w
  = (1, mkWorld (outs w) (errs w +:+ open_failure_message path) (files w)
                (can_open w) (opened w ++ [path])).
Proof.
  intros Hp Ho. unfold dump_tool_database, ofstream_open.
  rewrite decide_False by done. rewrite Ho. cbn. unfold put.
  unfold open_failure_message. by rewrite <- !sapp_assoc.
Qed.

(** C9. The file name "-" sends the text to the standard output and opens
    nothing. Any other name is opened, once: when that succeeds the file
    holds the text of the database and nothing of what it held before, and
    the result is 0; when it fails the result is 1, also as the result of
    [main], the one message goes to the error stream, no file and no
    standard output is written, and there is no second attempt to open. *)
Theorem output_sink_selection (db : ToolDatabase) (w : World) :
  dump_tool_database "-" db w
    = (0, mkWorld (outs w +:+ serialize db 0 +:+ LF) (errs w) (files w)
                  (can_open w) (opened w))
  ∧ (∀ path : string, path ≠ "-" → can_open w path = true →
       dump_tool_database path db w
         = (0, mkWorld (outs w) (errs w) (<[path := serialize db 0]> (files w))
                       (can_open w) (opened w ++ [path]))
       ∧ files (dump_tool_database path db w).2 !! path = Some (serialize db 0)
       ∧ ∀ other : string, other ≠ path →
           files (dump_tool_database path db w).2 !! other = files w !! other)
  ∧ (∀ path : string, path ≠ "-" → can_open w path = false →
       dump_tool_database path db w
         = (1, mkWorld (outs w) (errs w +:+ open_failure_message path)
                       (files w) (can_open w) (opened w ++ [path]))
       ∧ (main path 0 db w).1 = 1
       ∧ (main path 0 db w).1 ≠ 0).
Proof.
  split; [apply dump_tool_database_stdout|]. split.
  - intros path Hp Ho. rewrite dump_tool_database_file by done.
    split; [done|]. cbn [snd files]. split.
    + apply lookup_insert_eq.
    + intros other Hne. by apply lookup_insert_ne.
  - intros path Hp Ho. unfold main. rewrite decide_True by done.
    rewrite dump_tool_database_fail by done. done.
Qed.

Lemma output_sink_selection_witness :
  (dump_tool_database "out.json" foo_db sample_world
     = (0, mkWorld "" "" (<["out.json" := serialize foo_db 0]>
                            {[ "out.json" := "stale" ]})
                   (λ p, bool_decide (p = "out.json")) ["out.json"])
   ∧ files (dump_tool_database "out.json" foo_db sample_world).2 !! "out.json"
     = Some (serialize foo_db 0)
   ∧ ∀ other : string, other ≠ "out.json" →
       files (dump_tool_database "out.json" foo_db sample_world).2 !! other
       = files sample_world !! other)
  ∧ (dump_tool_database "/no/such/dir/f" foo_db sample_world
     = (1, mkWorld "" (open_failure_message "/no/such/dir/f")
                   {[ "out.json" := "stale" ]}
                   (λ p, bool_decide (p = "out.json")) ["/no/such/dir/f"])
     ∧ (main "/no/such/dir/f" 0 foo_db sample_world).1 = 1
     ∧ (main "/no/such/dir/f" 0 foo_db sample_world).1 ≠ 0).
Proof.
  split.
  - apply (proj1 (proj2 (output_sink_selection foo_db sample_world))
             "out.json"); [discriminate | reflexivity].
  - apply (proj2 (proj2 (output_sink_selection foo_db sample_world))
             "/no/such/dir/f"); [discriminate | reflexivity].
Defined.

(** C10. On the standard output the driver writes the text of the database
    and then a line feed; into a file it writes the text alone. The two
    sinks so receive different bytes for one database. *)
Theorem sinks_differ (db : ToolDatabase) (w : World) (path : string) :
  path ≠ "-" → can_open w path = true →
  outs (dump_tool_database "-" db w).2 = outs w +:+ (serialize db 0 +:+ LF)
  ∧ files (dump_tool_database path db w).2 !! path = Some (serialize db 0)
  ∧ serialize db 0 +:+ LF ≠ serialize db 0.
Proof.
  intros Hp Ho. rewrite dump_tool_database_stdout.
  rewrite dump_tool_database_file by done. cbn [snd outs files].
  split; [done|]. split; [apply lookup_insert_eq|].
  intros H. apply (f_equal String.length) in H.
  rewrite slength_app in H. cbn in H. lia.
Qed.

Lemma sinks_differ_witness :
  outs (dump_tool_database "-" foo_db sample_world).2
    = "" +:+ (serialize foo_db 0 +:+ LF)
  ∧ files (dump_tool_database "out.json" foo_db sample_world).2 !! "out.json"
    = Some (serialize foo_db 0)
  ∧ serialize foo_db 0 +:+ LF ≠ serialize foo_db 0.
Proof.
  apply (sinks_differ foo_db sample_world "out.json");
    [discriminate | reflexivity].
Defined.

(** ** Indentation of the written text *)

Section indentation_facts.

Lemma lines_nonempty (s : string) : lines s ≠ [].
Proof.
  induction s as [|a s IH]; cbn [lines]; [done|].
  destruct (decide (a = "010"%char)); [done|]. by destruct (lines s).
Qed.

Lemma lines_app_LF (a b : string) : lines (a +:+ LF +:+ b) = lines a ++ lines b.
Proof.
  induction a as [|c a IH]; [done|].
  rewrite sapp_cons. cbn [lines].
  destruct (decide (c = "010"%char)); [by rewrite IH|].
  rewrite IH. pose proof (lines_nonempty a). by destruct (lines a).
Qed.

Lemma lines_newline_free (s : string) : newline_free s = true → lines s = [s].
Proof.
  induction s as [|c s IH]; [done|]. cbn [newline_free lines].
  intros [Hc Hs]%andb_prop. apply bool_decide_eq_true in Hc.
  rewrite decide_False by done. by rewrite IH.
Qed.

Lemma newline_free_app (a b : string) :
  newline_free (a +:+ b) = newline_free a && newline_free b.
Proof.
  induction a as [|c a IH]; [done|].
  rewrite sapp_cons. cbn [newline_free]. by rewrite IH, andb_assoc.
Qed.

Lemma newline_free_spaces (k : nat) : newline_free (spaces k) = true.
Proof. induction k as [|k IH]; [done|]. cbn [spaces newline_free]. by rewrite IH. Qed.

Lemma leading_spaces_line (k : nat) (body : string) :
  starts_nonblank body = true → leading_spaces (spaces k +:+ body) = k.
Proof.
  intros Hb. induction k as [|k IH].
  - destruct body as [|c body]; [done|].
    cbn in Hb. apply andb_prop in Hb as [Hc _].
    apply bool_decide_eq_true in Hc.
    change (leading_spaces (String c body) = 0%nat). cbn [leading_spaces].
    by rewrite decide_False.
  - cbn [spaces]. rewrite sapp_cons. cbn [leading_spaces].
    rewrite decide_True by done. by rewrite IH.
Qed.

(** A whole line and what follows it. *)
Lemma indentation_cons_line (k : nat) (body rest : string) :
  starts_nonblank body = true → newline_free body = true →
  indentation ((spaces k +:+ body) +:+ LF +:+ rest) = k :: indentation rest.
Proof.
  intros Hb Hn. unfold indentation. rewrite lines_app_LF.
  rewrite lines_newline_free
    by (by rewrite newline_free_app, newline_free_spaces, Hn).
  cbn [app fmap list_fmap]. by rewrite leading_spaces_line.
Qed.

Lemma indentation_last_line (k : nat) (body : string) :
  starts_nonblank body = true → newline_free body = true →
  indentation (spaces k +:+ body) = [k].
Proof.
  intros Hb Hn. unfold indentation.
  rewrite lines_newline_free
    by (by rewrite newline_free_app, newline_free_spaces, Hn).
  cbn [fmap list_fmap]. by rewrite leading_spaces_line.
Qed.

Lemma indentation_empty_line (rest : string) :
  indentation (LF +:+ rest) = 0%nat :: indentation rest.
Proof. done. Qed.

End indentation_facts.

Ltac line_side :=
  first
    [ reflexivity
    | rewrite ?newline_free_app;
      repeat match goal with
             | H : newline_free _ = true |- _ => rewrite H
             end;
      reflexivity ].

Lemma field_block_indentation (i : Z) (f : FieldDatabase) (tl : string) :
  field_newline_free f = true →
  indentation (field_block i f +:+ tl)
  = [Z.to_nat i; Z.to_nat (i + 4); Z.to_nat (i + 4)]
    ++ indentation (spaces (Z.to_nat i) +:+ "}" +:+ tl).
Proof.
  intros [Ht Hv]%andb_prop.
  transitivity
    (indentation
       ((spaces (Z.to_nat i) +:+ "{") +:+ LF +:+
        (spaces (Z.to_nat (i + 4)) +:+
           (DQ +:+ "type" +:+ DQ +:+ " : " +:+ DQ +:+ type f +:+ DQ +:+ ","))
          +:+ LF +:+
        (spaces (Z.to_nat (i + 4)) +:+
           (DQ +:+ "variable" +:+ DQ +:+ ": " +:+ DQ +:+ variable f +:+ DQ))
          +:+ LF +:+
        spaces (Z.to_nat i) +:+ "}" +:+ tl)).
  { f_equal. unfold field_block, ind. rewrite <- ?sapp_assoc. done. }
  do 3 (rewrite indentation_cons_line by line_side). done.
Qed.

Lemma fields_text_indentation (i : Z) (fs : list FieldDatabase) :
  0 ≤ i →
  ∀ (iter : Z) (j : nat) (rest : string),
    0 < iter → forallb field_newline_free fs = true →
    indentation (spaces j +:+ "}" +:+ fields_text i iter fs +:+ LF +:+ rest)
    = j :: flat_map (λ _, field_profile (Z.to_nat (i + 8))) fs
        ++ indentation rest.
Proof.
  intros Hi. induction fs as [|f fs IH]; intros iter j rest Hiter Hnf.
  - cbn [fields_text flat_map app].
    change ("" +:+ LF +:+ rest) with (LF +:+ rest).
    rewrite (sapp_assoc (spaces j) "}").
    by rewrite indentation_cons_line by line_side.
  - cbn [forallb] in Hnf. apply andb_prop in Hnf as [Hf Hfs].
    cbn [fields_text flat_map]. unfold sep.
    rewrite (proj2 (Z.ltb_lt 0 iter)) by done.
    transitivity
      (indentation
         ((spaces j +:+ "},") +:+ LF +:+
          field_block (i + 8) f +:+
          (fields_text i (iter + 1) fs +:+ LF +:+ rest))).
    { f_equal. rewrite <- ?sapp_assoc. done. }
    rewrite indentation_cons_line by line_side.
    rewrite field_block_indentation by done.
    rewrite IH by (done || lia).
    unfold field_profile. cbn [app]. repeat f_equal; lia.
Qed.

Lemma fields_entry_indentation (i : Z) (fs : list FieldDatabase) (tl : string) :
  0 ≤ i → forallb field_newline_free fs = true →
  indentation (fields_entry i fs +:+ LF +:+ tl)
  = fields_entry_profile (Z.to_nat i) fs ++ indentation tl.
Proof.
  intros Hi Hnf. destruct fs as [|f fs]; unfold fields_entry, fields_entry_profile.
  - transitivity
      (indentation
         ((spaces (Z.to_nat i + 4) +:+ (DQ +:+ "fields" +:+ DQ +:+ ": []"))
            +:+ LF +:+ tl)).
    { f_equal. unfold ind. replace (Z.to_nat (i + 4)) with (Z.to_nat i + 4)%nat by lia.
      rewrite <- ?sapp_assoc. done. }
    by rewrite indentation_cons_line by line_side.
  - cbn [forallb] in Hnf. apply andb_prop in Hnf as [Hf Hfs].
    cbn [fields_text flat_map].
    transitivity
      (indentation
         ((spaces (Z.to_nat i + 4) +:+ (DQ +:+ "fields" +:+ DQ +:+ ":"))
            +:+ LF +:+
          (spaces (Z.to_nat i + 4) +:+ "[") +:+ LF +:+
          field_block (i + 8) f +:+
          (fields_text i (0 + 1) fs +:+ LF +:+
           (spaces (Z.to_nat i + 4) +:+ "]") +:+ LF +:+ tl))).
    { f_equal. unfold ind, sep.
      replace (Z.to_nat (i + 4)) with (Z.to_nat i + 4)%nat by lia.
      cbn [Z.ltb Z.compare]. rewrite <- ?sapp_assoc. done. }
    do 2 (rewrite indentation_cons_line by line_side).
    rewrite field_block_indentation by done.
    rewrite fields_text_indentation by (done || lia).
    rewrite indentation_cons_line by line_side.
    replace (Z.to_nat (i + 8)) with (Z.to_nat i + 4 + 4)%nat by lia.
    replace (Z.to_nat (i + 8 + 4)) with (Z.to_nat i + 4 + 4 + 4)%nat by lia.
    unfold field_profile. cbn [app]. rewrite <- ?app_assoc. done.
Qed.

Lemma class_block_indentation (i : Z) (c : ClassDatabase) (tl : string) :
  0 ≤ i → record_newline_free c = true →
  indentation (class_block i c +:+ tl)
  = [Z.to_nat i; (Z.to_nat i + 4)%nat]
    ++ fields_entry_profile (Z.to_nat i) (m_fields c)
    ++ indentation (spaces (Z.to_nat i) +:+ "}" +:+ tl).
Proof.
  intros Hi [Hn Hfs]%andb_prop.
  transitivity
    (indentation
       ((spaces (Z.to_nat i) +:+ "{") +:+ LF +:+
        (spaces (Z.to_nat i + 4) +:+
           (DQ +:+ "name" +:+ DQ +:+ ": " +:+ DQ +:+ m_name c +:+ DQ +:+ ","))
          +:+ LF +:+
        fields_entry i (m_fields c) +:+ LF +:+
        spaces (Z.to_nat i) +:+ "}" +:+ tl)).
  { f_equal. unfold class_block, ind.
    replace (Z.to_nat (i + 4)) with (Z.to_nat i + 4)%nat by lia.
    rewrite <- ?sapp_assoc. done. }
  do 2 (rewrite indentation_cons_line by line_side).
  by rewrite fields_entry_indentation.
Qed.

Lemma classes_text_indentation (i : Z) (cs : list ClassDatabase) :
  0 ≤ i →
  ∀ (iter : Z) (j : nat) (rest : string),
    0 < iter → forallb record_newline_free cs = true →
    indentation (spaces j +:+ "}" +:+ classes_text i iter cs +:+ LF +:+ rest)
    = j :: flat_map (record_profile (Z.to_nat i + 4)) cs ++ indentation rest.
Proof.
  intros Hi. induction cs as [|c cs IH]; intros iter j rest Hiter Hnf.
  - cbn [classes_text flat_map app].
    change ("" +:+ LF +:+ rest) with (LF +:+ rest).
    rewrite (sapp_assoc (spaces j) "}").
    by rewrite indentation_cons_line by line_side.
  - cbn [forallb] in Hnf. apply andb_prop in Hnf as [Hc Hcs].
    cbn [classes_text flat_map]. unfold sep.
    rewrite (proj2 (Z.ltb_lt 0 iter)) by done.
    transitivity
      (indentation
         ((spaces j +:+ "},") +:+ LF +:+
          class_block (i + 4) c +:+
          (classes_text i (iter + 1) cs +:+ LF +:+ rest))).
    { f_equal. rewrite <- ?sapp_assoc. done. }
    rewrite indentation_cons_line by line_side.
    rewrite class_block_indentation by (done || lia).
    rewrite IH by (done || lia).
    replace (Z.to_nat (i + 4)) with (Z.to_nat i + 4)%nat by lia.
    unfold record_profile. cbn [app]. rewrite <- ?app_assoc. done.
Qed.

(** C6, amended. Line by line, the text of a database at a base indent that
    is not negative, the strings of which hold no line feed, is indented as
    [database_profile] says: the brackets of the database at the base
    indent; the braces of each record 4 columns further in; the body of the
    record (the entry of its name, the entry of its fields and the brackets
    of a non-empty field array) 4 columns further in than its braces; the
    braces of each field 4 columns further in than the body of the record,
    and the two entries of the field 4 columns further in than those. *)
Theorem indentation_spec (db : ToolDatabase) (indent : Z) :
  0 ≤ indent → database_newline_free db = true →
  indentation (serialize db indent) = database_profile (Z.to_nat indent) db.
Proof.
  intros Hi Hnf. rewrite serialize_eq.
  unfold database_block, database_profile, database_newline_free in *.
  rewrite indentation_empty_line.
  destruct (m_classes db) as [|c cs].
  - cbn [classes_text].
    transitivity
      (Z.to_nat 0
       :: indentation
            ((spaces (Z.to_nat indent) +:+ "[") +:+ LF +:+
             LF +:+ spaces (Z.to_nat indent) +:+ "]")).
    { do 2 f_equal. unfold ind. rewrite <- ?sapp_assoc. done. }
    rewrite indentation_cons_line by line_side.
    rewrite indentation_empty_line.
    by rewrite indentation_last_line by line_side.
  - cbn [forallb] in Hnf. apply andb_prop in Hnf as [Hc Hcs].
    cbn [classes_text flat_map].
    transitivity
      (Z.to_nat 0
       :: indentation
            ((spaces (Z.to_nat indent) +:+ "[") +:+ LF +:+
             class_block (indent + 4) c +:+
             (classes_text indent (0 + 1) cs +:+ LF +:+
              spaces (Z.to_nat indent) +:+ "]"))).
    { do 2 f_equal. unfold ind, sep. cbn [Z.ltb Z.compare].
      rewrite <- ?sapp_assoc. done. }
    rewrite indentation_cons_line by line_side.
    rewrite class_block_indentation by (done || lia).
    rewrite classes_text_indentation by (done || lia).
    rewrite indentation_last_line by line_side.
    replace (Z.to_nat (indent + 4)) with (Z.to_nat indent + 4)%nat by lia.
    unfold record_profile. cbn [app Z.to_nat]. rewrite <- ?app_assoc. done.
Qed.

Lemma indentation_spec_witness :
  indentation (serialize sample_db 2)
  = [0; 2; 6; 10; 10; 10; 14; 18; 18; 14; 14; 18; 18; 14; 10; 6; 6; 10; 10;
     6; 2]%nat.
Proof.
  exact (indentation_spec sample_db 2 ltac:(lia) eq_refl).
Defined.

(** C6, as the claim has it, fails outside that domain, whatever column one
    takes for the bracket. At base indent -2 the bracket of the database
    stands at column 0 and the brace of the record at column 2, not 4
    columns further in. At base indent 0, a name that holds a line feed
    breaks the entry of the name in two, and the second line of the body
    stands at column 0, not 4 columns further in than the brace of the
    record. *)
Lemma indentation_outside_domain :
  (indentation (serialize foo_db (-2))
     = [0; 0; 2; 6; 6; 6; 10; 14; 14; 10; 6; 2; 0]%nat
   ∧ ¬ ∃ n : nat,
         indentation (serialize foo_db (-2)) = database_profile n foo_db)
  ∧ (indentation (serialize newline_db 0) = [0; 0; 4; 8; 0; 8; 4; 0]%nat
     ∧ ¬ ∃ n : nat,
           indentation (serialize newline_db 0) = database_profile n newline_db).
Proof.
  split; (split; [reflexivity|]); intros [n H].
  - assert (Hv : indentation (serialize foo_db (-2))
                 = [0; 0; 2; 6; 6; 6; 10; 14; 14; 10; 6; 2; 0]%nat)
      by reflexivity.
    rewrite Hv in H. clear Hv.
    unfold database_profile, record_profile in H. cbn [foo_db m_classes flat_map app] in H.
    injection H as _ Hn Hb _. lia.
  - assert (Hv : indentation (serialize newline_db 0)
                 = [0; 0; 4; 8; 0; 8; 4; 0]%nat)
      by reflexivity.
    rewrite Hv in H. clear Hv. apply (f_equal length) in H.
    discriminate H.
Qed.

(** * Further properties of the code *)

(** ** More on the name filter *)

Lemma substring_of_refl_empty (s : string) : substring_of "" s.
Proof. by exists "", s. Qed.

Lemma substring_of_trans (a b c : string) :
  substring_of a b → substring_of b c → substring_of a c.
Proof.
  intros (p1 & s1 & ->) (p2 & s2 & ->).
  exists (p2 +:+ p1), (s1 +:+ s2). by rewrite <- !sapp_assoc.
Qed.

Lemma shouldVisit_true_iff (ml : list string) (d : CXXRecordDecl) :
  shouldVisit ml d = true
  ↔ ml = [] ∨ ∃ p, p ∈ ml ∧ substring_of p (getQualifiedNameAsString d).
Proof.
  destruct ml as [|m ms].
  - split; [by left | done].
  - unfold shouldVisit. rewrite shouldVisit_loop_spec.
    split; [by right | by intros [?|?]].
Qed.

(** X1. A pattern that is the empty string matches at position 0 of every
    name: a list that holds it accepts every declaration. *)
Theorem empty_pattern_accepts_all (ml : list string) (d : CXXRecordDecl) :
  "" ∈ ml → shouldVisit ml d = true.
Proof.
  intros Hin. apply shouldVisit_true_iff. right.
  exists "". split; [done | apply substring_of_refl_empty].
Qed.

Lemma empty_pattern_accepts_all_witness :
  shouldVisit ["Foo"; ""] (mkCXXRecordDecl "Bar" []) = true.
Proof.
  apply (empty_pattern_accepts_all ["Foo"; ""] (mkCXXRecordDecl "Bar" [])).
  right. left.
Defined.

(** X2. The verdict depends on the patterns as a set: two lists with the
    same elements, in whatever order and however often repeated, accept the
    same declarations. *)
Theorem filter_patterns_as_set (ml1 ml2 : list string) (d : CXXRecordDecl) :
  (∀ p, p ∈ ml1 ↔ p ∈ ml2) → shouldVisit ml1 d = shouldVisit ml2 d.
Proof.
  intros Hset.
  assert (Hiff : shouldVisit ml1 d = true ↔ shouldVisit ml2 d = true).
  { rewrite !shouldVisit_true_iff. split.
    - intros [->|(p & Hp & Hs)].
      + left. destruct ml2 as [|m ms]; [done|].
        exfalso. eapply (not_elem_of_nil m). apply Hset. left.
      + right. exists p. split; [by apply Hset | done].
    - intros [->|(p & Hp & Hs)].
      + left. destruct ml1 as [|m ms]; [done|].
        exfalso. eapply (not_elem_of_nil m). apply Hset. left.
      + right. exists p. split; [by apply Hset | done]. }
  destruct (shouldVisit ml1 d), (shouldVisit ml2 d); try done.
  - symmetry. by apply Hiff.
  - by apply Hiff.
Qed.

Lemma filter_patterns_as_set_witness :
  shouldVisit ["Foo"; "Bar"] (mkCXXRecordDecl "ns::Bar" [])
  = shouldVisit ["Bar"; "Foo"; "Bar"] (mkCXXRecordDecl "ns::Bar" []).
Proof.
  apply (filter_patterns_as_set ["Foo"; "Bar"] ["Bar"; "Foo"; "Bar"]
           (mkCXXRecordDecl "ns::Bar" [])).
  intros p. rewrite !elem_of_cons, !elem_of_nil. tauto.
Defined.

(** X3. More patterns accept more, once there is one: a declaration
    accepted under a non-empty list is accepted under every list that holds
    its patterns. The empty list is the exception, it accepts everything:
    the first pattern added to it turns declarations away. *)
Theorem filter_widening :
  (∀ (ml ml' : list string) (d : CXXRecordDecl),
     ml ≠ [] → ml ⊆ ml' →
     shouldVisit ml d = true → shouldVisit ml' d = true)
  ∧ (∃ (p : string) (d : CXXRecordDecl),
       shouldVisit [] d = true ∧ shouldVisit ([] ++ [p]) d = false).
Proof.
  split.
  - intros ml ml' d Hne Hsub. rewrite !shouldVisit_true_iff.
    intros [->|(p & Hp & Hs)]; [done|].
    right. exists p. split; [by apply Hsub | done].
  - by exists "Foo", (mkCXXRecordDecl "Bar" []).
Qed.

Lemma filter_widening_witness :
  shouldVisit ["Baz"; "Foo"] (mkCXXRecordDecl "NsFoo::Baz" []) = true.
Proof.
  apply (proj1 filter_widening ["Foo"] ["Baz"; "Foo"]
           (mkCXXRecordDecl "NsFoo::Baz" [])).
  - discriminate.
  - intros p Hp. apply list_elem_of_singleton in Hp as ->. right. left.
  - reflexivity.
Defined.

(** X4. The filter is closed under longer names: when a declaration is
    accepted, so is every declaration whose qualified name contains the name
    of the first, such as the types nested in it. *)
Theorem filter_nested (ml : list string) (d d' : CXXRecordDecl) :
  substring_of (getQualifiedNameAsString d) (getQualifiedNameAsString d') →
  shouldVisit ml d = true → shouldVisit ml d' = true.
Proof.
  intros Hsub. rewrite !shouldVisit_true_iff.
  intros [->|(p & Hp & Hs)]; [by left|].
  right. exists p. split; [done|]. by eapply substring_of_trans.
Qed.

Lemma filter_nested_witness :
  shouldVisit ["Foo"] (mkCXXRecordDecl "ns::Foo::Inner" []) = true.
Proof.
  apply (filter_nested ["Foo"] (mkCXXRecordDecl "ns::Foo" [])
           (mkCXXRecordDecl "ns::Foo::Inner" [])).
  - by exists "", "::Inner".
  - reflexivity.
Defined.

(** ** More on the walk *)

Lemma ToolDatabase_eq (t1 t2 : ToolDatabase) :
  m_classes t1 = m_classes t2 → t1 = t2.
Proof. destruct t1, t2. cbn. by intros ->. Qed.

Lemma filter_shouldVisit_nil (events : list CXXRecordDecl) :
  List.filter (shouldVisit []) events = events.
Proof. induction events as [|d events IH]; [done|]. cbn. by rewrite IH. Qed.

(** X5. The database is not reset between translation units: a walk over
    the events of one unit and then over those of a second is the walk over
    all of them, and on a fresh database its records are those of the first
    walk followed by those a walk of the second unit alone would leave,
    nothing merged and nothing dropped. *)
Theorem TraverseDecl_units (ml : list string) (t : ToolDatabase)
    (events1 events2 : list CXXRecordDecl) :
  TraverseDecl ml (TraverseDecl ml t events1) events2
    = TraverseDecl ml t (events1 ++ events2)
  ∧ m_classes (TraverseDecl ml (TraverseDecl ml global_tdb_init events1) events2)
    = m_classes (TraverseDecl ml global_tdb_init events1)
      ++ m_classes (TraverseDecl ml global_tdb_init events2).
Proof.
  split.
  - unfold TraverseDecl. by rewrite foldl_app.
  - by rewrite !TraverseDecl_eq.
Qed.

(** X6. Filtering in the callback is filtering the events beforehand: the
    walk under a pattern list is the walk under no pattern over the events
    the filter accepts. Under no pattern every event leaves its record, so
    the database grows by the number of events. *)
Theorem TraverseDecl_prefiltered (ml : list string) (t : ToolDatabase)
    (events : list CXXRecordDecl) :
  TraverseDecl ml t events
    = TraverseDecl [] t (List.filter (shouldVisit ml) events)
  ∧ m_classes (TraverseDecl [] t events) = m_classes t ++ (record_of <$> events)
  ∧ length (m_classes (TraverseDecl [] t events))
    = (length (m_classes t) + length events)%nat.
Proof.
  split; [|split].
  - apply ToolDatabase_eq. by rewrite !TraverseDecl_eq, filter_shouldVisit_nil.
  - by rewrite TraverseDecl_eq, filter_shouldVisit_nil.
  - by rewrite TraverseDecl_eq, filter_shouldVisit_nil, length_app, length_fmap.
Qed.

(** ** More on the serializer *)

Lemma classes_text_snoc (i : Z) (cs : list ClassDatabase) (c : ClassDatabase) :
  ∀ iter : Z,
    classes_text i iter (cs ++ [c])
    = classes_text i iter cs +:+ sep (iter + Z.of_nat (length cs))
        +:+ class_block (i + 4) c.
Proof.
  induction cs as [|c0 cs IH]; intros iter; cbn [app classes_text length].
  - rewrite sapp_nil_r. by replace (iter + Z.of_nat 0) with iter by lia.
  - rewrite IH, <- !sapp_assoc.
    by replace (iter + 1 + Z.of_nat (length cs))
         with (iter + Z.of_nat (S (length cs))) by lia.
Qed.

(** X7. Dumping after one more record was added only inserts text in front
    of the closing bracket: the text of the longer database is the text of
    the shorter one up to its last line, then a comma and a line feed unless
    the shorter one was empty, then the block of the new record, then the
    last line. *)
Theorem dump_after_append (cs : list ClassDatabase) (c : ClassDatabase)
    (indent : Z) :
  ∃ body : string,
    serialize (mkToolDatabase cs) indent
      = body +:+ LF +:+ appendVal "" " " indent +:+ "]"
    ∧ serialize (mkToolDatabase (cs ++ [c])) indent
      = body +:+ (match cs with [] => "" | _ :: _ => "," +:+ LF end)
          +:+ ClassDatabase_dump c "" (indent + 4)
          +:+ LF +:+ appendVal "" " " indent +:+ "]".
Proof.
  exists (LF +:+ ind indent +:+ "[" +:+ LF +:+ classes_text indent 0 cs).
  rewrite !serialize_eq, ClassDatabase_dump_eq, appendVal_spaces.
  unfold database_block. cbn [m_classes]. rewrite classes_text_snoc.
  split; [by rewrite <- !sapp_assoc|].
  rewrite <- !sapp_assoc. do 5 f_equal.
  destruct cs; [done|]. unfold sep.
  rewrite (proj2 (Z.ltb_lt 0 _)) by (cbn [length]; lia).
  by rewrite <- !sapp_assoc.
Qed.

(** X8. Nothing is escaped, so the text does not determine the database
    once a string holds a double quote: for all names [a] and [b] and every
    base indent, the database of the two field-less records [a] and [b] and
    the database of the one field-less record whose name is [a], the
    separating text and [b] are written alike. *)
Theorem serialize_ambiguous (a b : string) (indent : Z) :
  let db2 := mkToolDatabase [ClassDatabase_new a; ClassDatabase_new b] in
  let db1 := mkToolDatabase [ClassDatabase_new (a +:+ record_glue indent +:+ b)] in
  db2 ≠ db1 ∧ serialize db2 indent = serialize db1 indent.
Proof.
  split; [discriminate|].
  rewrite !serialize_eq.
  unfold database_block, classes_text, class_block, fields_entry, record_glue, sep.
  cbn [m_classes m_fields m_name ClassDatabase_new Z.ltb Z.compare Z.add
       Pos.add Pos.succ].
  rewrite <- ?sapp_assoc. done.
Qed.

Lemma ind_nonpos (j : Z) : j ≤ 0 → ind j = "".
Proof. intros Hj. unfold ind. by replace (Z.to_nat j) with 0%nat by lia. Qed.

Lemma fields_text_clamp (i : Z) (fs : list FieldDatabase) :
  i + 12 ≤ 0 → ∀ iter, fields_text i iter fs = fields_text (-12) iter fs.
Proof.
  intros Hi. induction fs as [|f fs IH]; intros iter; [done|].
  cbn [fields_text]. rewrite IH. do 2 f_equal.
  unfold field_block. by rewrite !ind_nonpos by lia.
Qed.

Lemma class_block_clamp (j : Z) (c : ClassDatabase) :
  j + 12 ≤ 0 → class_block j c = class_block (-12) c.
Proof.
  intros Hj. unfold class_block, fields_entry.
  rewrite (fields_text_clamp j) by done.
  by rewrite !ind_nonpos by lia.
Qed.

Lemma classes_text_clamp (i : Z) (cs : list ClassDatabase) :
  i + 16 ≤ 0 → ∀ iter, classes_text i iter cs = classes_text (-16) iter cs.
Proof.
  intros Hi. induction cs as [|c cs IH]; intros iter; [done|].
  cbn [classes_text]. rewrite IH. do 2 f_equal.
  rewrite (class_block_clamp (i + 4)) by lia. done.
Qed.

(** X9. [appendVal] writes nothing for a count that is not positive, so
    from base indent -16 downwards no line of the text is indented and the
    text no longer depends on the base indent. *)
Theorem negative_indent_clamps (db : ToolDatabase) (indent : Z) :
  indent ≤ -16 → serialize db indent = serialize db (-16).
Proof.
  intros Hi. rewrite !serialize_eq. unfold database_block.
  rewrite (classes_text_clamp indent) by lia.
  by rewrite !ind_nonpos by lia.
Qed.

Lemma negative_indent_clamps_witness :
  serialize sample_db (-40) = serialize sample_db (-16).
Proof.
  apply (negative_indent_clamps sample_db (-40)). lia.
Defined.






Lemma count_char_app (c : ascii) (a b : string) :
  count_char c (a +:+ b) = (count_char c a + count_char c b)%nat.
Proof.
  induction a as [|x a IH]; [done|].
  rewrite sapp_cons. cbn [count_char]. rewrite IH. lia.
Qed.

Lemma count_char_spaces (c : ascii) (k : nat) :
  c ≠ " "%char → count_char c (spaces k) = 0%nat.
Proof.
  intros Hc. induction k as [|k IH]; [done|]. cbn [spaces count_char].
  rewrite IH. destruct (Ascii.eqb_spec " " c); [congruence | done].
Qed.

Ltac count_pieces :=
  unfold ind; rewrite ?count_char_app, ?count_char_spaces by done;
  unfold LF, DQ; cbn [count_char Ascii.eqb Bool.eqb].

Lemma count_sep (c : ascii) (iter : Z) :
  c = "{"%char ∨ c = "}"%char → count_char c (sep iter) = 0%nat.
Proof. unfold sep. intros [-> | ->]; by destruct (0 <? iter). Qed.

Lemma count_field_block (c : ascii) (i : Z) (f : FieldDatabase) :
  c = "{"%char ∨ c = "}"%char →
  count_char c (field_block i f) = (1 + field_count c f)%nat.
Proof.
  intros [-> | ->]; unfold field_block, field_count; count_pieces; lia.
Qed.

Lemma count_fields_text (c : ascii) (i : Z) (fs : list FieldDatabase) :
  c = "{"%char ∨ c = "}"%char →
  ∀ iter, count_char c (fields_text i iter fs)
          = (length fs + sum_list (field_count c <$> fs))%nat.
Proof.
  intros Hc. induction fs as [|f fs IH]; intros iter; [done|].
  rewrite fmap_cons. cbn [fields_text length sum_list_with].
  rewrite !count_char_app, count_sep, count_field_block, IH by done.
  unfold id. lia.
Qed.

Lemma count_class_block (c : ascii) (i : Z) (r : ClassDatabase) :
  c = "{"%char ∨ c = "}"%char →
  count_char c (class_block i r)
  = (1 + length (m_fields r) + record_count c r)%nat.
Proof.
  intros Hc. unfold class_block, fields_entry, record_count.
  destruct (m_fields r) as [|f fs] eqn:Hfs.
  - destruct Hc as [-> | ->]; count_pieces; cbn; lia.
  - rewrite !count_char_app, (count_fields_text c i (f :: fs)) by done.
    destruct Hc as [-> | ->]; count_pieces; lia.
Qed.

Lemma count_classes_text (c : ascii) (i : Z) (cs : list ClassDatabase) :
  c = "{"%char ∨ c = "}"%char →
  ∀ iter, count_char c (classes_text i iter cs)
          = (length cs + sum_list ((λ r, length (m_fields r)) <$> cs)
             + sum_list (record_count c <$> cs))%nat.
Proof.
  intros Hc. induction cs as [|r cs IH]; intros iter; [done|].
  rewrite !fmap_cons. cbn [classes_text length sum_list_with].
  rewrite !count_char_app, count_sep, count_class_block, IH by done.
  unfold id. lia.
Qed.

(** X11. The braces of the text are those of the blocks and those of the
    strings: an opening brace, and likewise a closing one, occurs once per
    record, once per field, and wherever a name, type or variable holds
    one. When no string holds a brace, the text has as many opening as
    closing braces, one pair per record and per field. *)
Theorem brace_count (c : ascii) (db : ToolDatabase) (indent : Z) :
  c = "{"%char ∨ c = "}"%char →
  count_char c (serialize db indent)
  = (length (m_classes db) + total_fields db + database_count c db)%nat.
Proof.
  intros Hc. rewrite serialize_eq.
  unfold database_block, total_fields, database_count.
  rewrite !count_char_app, count_classes_text by done.
  destruct Hc as [-> | ->]; count_pieces; lia.
Qed.

Lemma brace_count_witness :
  count_char "{" (serialize sample_db 0) = 4%nat
  ∧ count_char "}" (serialize sample_db 0) = 4%nat.
Proof.
  split.
  - apply (brace_count "{" sample_db 0). by left.
  - apply (brace_count "}" sample_db 0). by right.
Defined.

(** *** Reading the database back from its text *)

Lemma split_at_quote (a : string) :
  ∀ (b r1 r2 : string),
    quote_free a = true → quote_free b = true →
    a +:+ DQ +:+ r1 = b +:+ DQ +:+ r2 → a = b ∧ r1 = r2.
Proof.
  induction a as [|x a IH]; intros [|y b] r1 r2 Ha Hb H.
  - split; [done|]. by injection H.
  - exfalso. injection H as Hy _. subst y. discriminate Hb.
  - exfalso. injection H as Hx _. subst x. discriminate Ha.
  - rewrite !sapp_cons in H. injection H as -> H.
    cbn [quote_free] in Ha, Hb.
    apply andb_prop in Ha as [_ Ha]. apply andb_prop in Hb as [_ Hb].
    destruct (IH b r1 r2 Ha Hb H) as [-> ->]. done.
Qed.

(** Drop the pieces that two texts begin with alike. *)
Ltac cancel H := repeat (apply (inj (String.app _)) in H).

Lemma field_block_inj (i : Z) (f1 f2 : FieldDatabase) (t1 t2 : string) :
  field_quote_free f1 = true → field_quote_free f2 = true →
  field_block i f1 +:+ t1 = field_block i f2 +:+ t2 → f1 = f2 ∧ t1 = t2.
Proof.
  intros [Ht1 Hv1]%andb_prop [Ht2 Hv2]%andb_prop H.
  unfold field_block in H. rewrite <- ?sapp_assoc in H. cancel H.
  apply split_at_quote in H as [Hty H]; [|done..]. cancel H.
  apply split_at_quote in H as [Hvar H]; [|done..]. cancel H.
  split; [|done]. destruct f1, f2. cbn in Hty, Hvar. congruence.
Qed.

Lemma fields_text_inj (i : Z) (fs1 : list FieldDatabase) :
  ∀ (fs2 : list FieldDatabase) (iter1 iter2 : Z) (t1 t2 : string),
    0 < iter1 → 0 < iter2 →
    forallb field_quote_free fs1 = true → forallb field_quote_free fs2 = true →
    fields_text i iter1 fs1 +:+ LF +:+ t1 = fields_text i iter2 fs2 +:+ LF +:+ t2 →
    fs1 = fs2 ∧ t1 = t2.
Proof.
  induction fs1 as [|f1 fs1 IH]; intros [|f2 fs2] iter1 iter2 t1 t2 H1 H2 Hq1 Hq2 H;
    cbn [fields_text] in H; unfold sep in H;
    rewrite ?(proj2 (Z.ltb_lt 0 iter1)), ?(proj2 (Z.ltb_lt 0 iter2)) in H by done;
    rewrite <- ?sapp_assoc in H.
  - cancel H. done.
  - discriminate H.
  - discriminate H.
  - cbn [forallb] in Hq1, Hq2.
    apply andb_prop in Hq1 as [Hf1 Hq1]. apply andb_prop in Hq2 as [Hf2 Hq2].
    cancel H. apply field_block_inj in H as [-> H]; [|done..].
    apply IH in H as [-> ->]; [done | lia | lia | done | done].
Qed.

Lemma fields_entry_inj (i : Z) (fs1 fs2 : list FieldDatabase) (t1 t2 : string) :
  forallb field_quote_free fs1 = true → forallb field_quote_free fs2 = true →
  fields_entry i fs1 +:+ t1 = fields_entry i fs2 +:+ t2 → fs1 = fs2 ∧ t1 = t2.
Proof.
  intros Hq1 Hq2 H. unfold fields_entry in H.
  destruct fs1 as [|f1 fs1], fs2 as [|f2 fs2];
    cbn [fields_text] in H; unfold sep in H; cbn [Z.ltb Z.compare] in H;
    rewrite <- ?sapp_assoc in H; cancel H.
  - done.
  - discriminate H.
  - discriminate H.
  - cbn [forallb] in Hq1, Hq2.
    apply andb_prop in Hq1 as [Hf1 Hq1]. apply andb_prop in Hq2 as [Hf2 Hq2].
    apply field_block_inj in H as [-> H]; [|done..].
    apply fields_text_inj in H as [-> H]; [|lia | lia | done | done].
    cancel H. done.
Qed.

Lemma class_block_inj (i : Z) (c1 c2 : ClassDatabase) (t1 t2 : string) :
  record_quote_free c1 = true → record_quote_free c2 = true →
  class_block i c1 +:+ t1 = class_block i c2 +:+ t2 → c1 = c2 ∧ t1 = t2.
Proof.
  intros [Hn1 Hq1]%andb_prop [Hn2 Hq2]%andb_prop H.
  unfold class_block in H. rewrite <- ?sapp_assoc in H. cancel H.
  apply split_at_quote in H as [Hname H]; [|done..]. cancel H.
  apply fields_entry_inj in H as [Hfs H]; [|done..]. cancel H.
  split; [|done]. destruct c1, c2. cbn in Hname, Hfs. congruence.
Qed.

Lemma classes_text_inj (i : Z) (cs1 : list ClassDatabase) :
  ∀ (cs2 : list ClassDatabase) (iter1 iter2 : Z) (t1 t2 : string),
    0 < iter1 → 0 < iter2 →
    forallb record_quote_free cs1 = true → forallb record_quote_free cs2 = true →
    classes_text i iter1 cs1 +:+ LF +:+ t1 = classes_text i iter2 cs2 +:+ LF +:+ t2 →
    cs1 = cs2 ∧ t1 = t2.
Proof.
  induction cs1 as [|c1 cs1 IH]; intros [|c2 cs2] iter1 iter2 t1 t2 H1 H2 Hq1 Hq2 H;
    cbn [classes_text] in H; unfold sep in H;
    rewrite ?(proj2 (Z.ltb_lt 0 iter1)), ?(proj2 (Z.ltb_lt 0 iter2)) in H by done;
    rewrite <- ?sapp_assoc in H.
  - cancel H. done.
  - discriminate H.
  - discriminate H.
  - cbn [forallb] in Hq1, Hq2.
    apply andb_prop in Hq1 as [Hc1 Hq1]. apply andb_prop in Hq2 as [Hc2 Hq2].
    cancel H. apply class_block_inj in H as [-> H]; [|done..].
    apply IH in H as [-> ->]; [done | lia | lia | done | done].
Qed.

Lemma class_block_not_LF (i : Z) (c : ClassDatabase) (t1 t2 : string) :
  LF +:+ t1 ≠ class_block i c +:+ t2.
Proof.
  unfold class_block, ind. rewrite <- ?sapp_assoc.
  destruct (Z.to_nat i); discriminate.
Qed.

(** X12. When no name, type or variable holds a double quote, the text
    determines the database: two such databases written alike at one base
    indent are the same database, record for record and field for field. *)
Theorem serialize_injective (db1 db2 : ToolDatabase) (indent : Z) :
  database_quote_free db1 = true → database_quote_free db2 = true →
  serialize db1 indent = serialize db2 indent → db1 = db2.
Proof.
  intros Hq1 Hq2 H. rewrite !serialize_eq in H.
  unfold database_block in H. apply ToolDatabase_eq.
  unfold database_quote_free in Hq1, Hq2.
  destruct (m_classes db1) as [|c1 cs1], (m_classes db2) as [|c2 cs2];
    cbn [classes_text] in H; unfold sep in H; cbn [Z.ltb Z.compare] in H;
    rewrite <- ?sapp_assoc in H; cancel H.
  - done.
  - by apply class_block_not_LF in H.
  - symmetry in H. by apply class_block_not_LF in H.
  - cbn [forallb] in Hq1, Hq2.
    apply andb_prop in Hq1 as [Hc1 Hq1]. apply andb_prop in Hq2 as [Hc2 Hq2].
    apply class_block_inj in H as [-> H]; [|done..].
    apply classes_text_inj in H as [-> _]; [done | lia | lia | done | done].
Qed.

Lemma serialize_injective_witness :
  mkToolDatabase [mkClassDatabase [mkFieldDatabase "int" "Foo::x"] "Foo"]
  = foo_db.
Proof.
  apply (serialize_injective _ foo_db 0); reflexivity.
Defined.

(** ** More on the driver *)

(** X13. The exit code of [main] is 0 exactly when the tool run succeeded
    and the output went through: to the standard output, or to a file that
    could be opened. After a failed tool run [main] returns its code and
    writes nothing, neither text nor message, and opens no file. *)
Theorem main_exit_code (OutputFilename : string) (result : Z)
    (db : ToolDatabase) (w : World) :
  ((main OutputFilename result db w).1 = 0
   ↔ result = 0
     ∧ (OutputFilename = "-" ∨ can_open w OutputFilename = true))
  ∧ (result ≠ 0 → main OutputFilename result db w = (result, w)).
Proof.
  unfold main. split.
  - destruct (decide (result = 0)) as [->|Hr]; [|cbn; tauto].
    destruct (decide (OutputFilename = "-")) as [->|Hp].
    + rewrite dump_tool_database_stdout. cbn. tauto.
    + destruct (can_open w OutputFilename) eqn:Ho.
      * rewrite dump_tool_database_file by done. cbn. tauto.
      * rewrite dump_tool_database_fail by done. cbn.
        split; [done | intros [_ [?|?]]; done].
  - intros Hr. by rewrite decide_False.
Qed.

Lemma main_exit_code_witness :
  main "out.json" 2 foo_db sample_world = (2, sample_world)
  ∧ (main "/no/such/dir/f" 0 foo_db sample_world).1 ≠ 0.
Proof.
  split.
  - apply (proj2 (main_exit_code "out.json" 2 foo_db sample_world)). lia.
  - intros H.
    apply (proj1 (main_exit_code "/no/such/dir/f" 0 foo_db sample_world)) in H.
    destruct H as [_ [H|H]]; discriminate H.
Defined.

(** X14. A file is overwritten and the standard output is added to: after a
    run into a file, a second run into the same file leaves in it the text
    of the second database alone, so the same database twice leaves the
    files as they were; two runs to the standard output leave both texts
    there, one after the other. *)
Theorem rerun_overwrites (path : string) (db db' : ToolDatabase) (w : World) :
  path ≠ "-" → can_open w path = true →
  let w1 := (dump_tool_database path db w).2 in
  files (dump_tool_database path db' w1).2 !! path = Some (serialize db' 0)
  ∧ files (dump_tool_database path db w1).2 = files w1
  ∧ outs (dump_tool_database "-" db' (dump_tool_database "-" db w).2).2
    = outs w +:+ (serialize db 0 +:+ LF) +:+ (serialize db' 0 +:+ LF).
Proof.
  intros Hp Ho w1. unfold w1.
  rewrite (dump_tool_database_file path db w) by done. cbn [snd].
  rewrite !dump_tool_database_file by done.
  rewrite !dump_tool_database_stdout. cbn [snd files outs].
  split; [apply lookup_insert_eq|]. split; [apply insert_insert_eq|].
  by rewrite <- !sapp_assoc.
Qed.

Lemma rerun_overwrites_witness :
  files (dump_tool_database "out.json" sample_db
           (dump_tool_database "out.json" foo_db sample_world).2).2
    !! "out.json" = Some (serialize sample_db 0).
Proof.
  apply (rerun_overwrites "out.json" foo_db sample_db sample_world);
    [discriminate | reflexivity].
Defined.

(** ** The earlier variant *)

Lemma legacy_FieldDatabase_dump_eq (f : FieldDatabase) (out : ostream) (i : Z) :
  Legacy.FieldDatabase_dump f out i = out +:+ legacy_field_block i f.
Proof. unfold Legacy.FieldDatabase_dump, legacy_field_block. norm_stream. done. Qed.

Lemma legacy_dump_fields_loop (indent : Z) (fs : list FieldDatabase) :
  ∀ (out : ostream) (iter : Z),
    foldl (Legacy.dump_fields_body indent) (out, iter) fs
    = (out +:+ legacy_fields_text indent iter fs, iter + Z.of_nat (length fs)).
Proof.
  induction fs as [|f fs IH]; intros out iter.
  - cbn [foldl legacy_fields_text length]. rewrite sapp_nil_r. f_equal. lia.
  - cbn [foldl legacy_fields_text length]. unfold Legacy.dump_fields_body at 2.
    rewrite IH, legacy_FieldDatabase_dump_eq. f_equal; [|lia].
    unfold sep. destruct (0 <? iter); norm_stream; done.
Qed.

Lemma legacy_ClassDatabase_dump_eq (c : ClassDatabase) (out : ostream) (i : Z) :
  Legacy.ClassDatabase_dump c out i = out +:+ legacy_class_block i c.
Proof.
  unfold Legacy.ClassDatabase_dump, legacy_class_block, legacy_fields_entry.
  destruct (m_fields c) as [|f fs] eqn:Hfs.
  - norm_stream. done.
  - rewrite legacy_dump_fields_loop. norm_stream. done.
Qed.

Lemma legacy_dump_classes_loop (indent : Z) (cs : list ClassDatabase) :
  ∀ (out : ostream) (iter : Z),
    foldl (Legacy.dump_classes_body indent) (out, iter) cs
    = (out +:+ legacy_classes_text indent iter cs, iter + Z.of_nat (length cs)).
Proof.
  induction cs as [|c cs IH]; intros out iter.
  - cbn [foldl legacy_classes_text length]. rewrite sapp_nil_r. f_equal. lia.
  - cbn [foldl legacy_classes_text length]. unfold Legacy.dump_classes_body at 2.
    rewrite IH, legacy_ClassDatabase_dump_eq. f_equal; [|lia].
    unfold sep. destruct (0 <? iter); norm_stream; done.
Qed.

Lemma legacy_ToolDatabase_dump_eq (db : ToolDatabase) (out : ostream) (i : Z) :
  Legacy.ToolDatabase_dump db out i = out +:+ legacy_database_block i db.
Proof.
  unfold Legacy.ToolDatabase_dump, legacy_database_block.
  rewrite legacy_dump_classes_loop. norm_stream. done.
Qed.

Lemma legacy_serialize_eq (db : ToolDatabase) (i : Z) :
  Legacy.serialize db i = legacy_database_block i db.
Proof. unfold Legacy.serialize. by rewrite legacy_ToolDatabase_dump_eq. Qed.

(** X15. The walk of the earlier variant is the walk of the current one
    under an empty pattern list: it leaves the same database, one record per
    event. *)
Theorem legacy_TraverseDecl (t : ToolDatabase) (events : list CXXRecordDecl) :
  Legacy.TraverseDecl t events = TraverseDecl [] t events
  ∧ m_classes (Legacy.TraverseDecl t events)
    = m_classes t ++ (record_of <$> events).
Proof.
  assert (H : Legacy.TraverseDecl t events = TraverseDecl [] t events).
  { unfold Legacy.TraverseDecl, TraverseDecl. revert t.
    induction events as [|d events IH]; intros t; [done|].
    cbn [foldl]. by rewrite IH. }
  split; [done|]. by rewrite H, TraverseDecl_eq, filter_shouldVisit_nil.
Qed.

(** X16. In the earlier variant the standard output and a file receive the
    same bytes, the text of the database with nothing behind it. *)
Theorem legacy_sinks_agree (db : ToolDatabase) (w : World) (path : string) :
  path ≠ "-" → can_open w path = true →
  outs (Legacy.dump_tool_database "-" db w).2 = outs w +:+ Legacy.serialize db 0
  ∧ files (Legacy.dump_tool_database path db w).2 !! path
    = Some (Legacy.serialize db 0).
Proof.
  intros Hp Ho. unfold Legacy.dump_tool_database, ofstream_open.
  rewrite decide_True by done. rewrite decide_False by done. rewrite Ho.
  cbn [snd outs files can_open errs opened].
  rewrite legacy_ToolDatabase_dump_eq, legacy_serialize_eq.
  split; [done|]. rewrite lookup_insert_eq.
  by rewrite legacy_ToolDatabase_dump_eq.
Qed.

Lemma legacy_sinks_agree_witness :
  outs (Legacy.dump_tool_database "-" foo_db sample_world).2
    = "" +:+ Legacy.serialize foo_db 0
  ∧ files (Legacy.dump_tool_database "out.json" foo_db sample_world).2
      !! "out.json"
    = Some (Legacy.serialize foo_db 0).
Proof.
  apply (legacy_sinks_agree foo_db sample_world "out.json");
    [discriminate | reflexivity].
Defined.

Lemma ind_add4 (j : Z) : 0 ≤ j → ind (j + 4) = ind j +:+ "    ".
Proof.
  intros Hj. unfold ind.
  replace (Z.to_nat (j + 4)) with (S (S (S (S (Z.to_nat j))))) by lia.
  by rewrite <- !spaces_snoc, <- !sapp_assoc.
Qed.

(** X17. At a base indent that is not negative the two variants write the
    same text for the empty database and for no other: the body of a record
    is indented differently. *)
Theorem legacy_text_differs (db : ToolDatabase) (indent : Z) :
  0 ≤ indent →
  (Legacy.serialize db indent = serialize db indent ↔ m_classes db = []).
Proof.
  intros Hi. rewrite legacy_serialize_eq, serialize_eq.
  unfold legacy_database_block, database_block.
  destruct (m_classes db) as [|c cs]; [done|].
  split; [|done]. intros H. exfalso.
  cbn [legacy_classes_text classes_text] in H.
  unfold sep, legacy_class_block, class_block in H. cbn [Z.ltb Z.compare] in H.
  rewrite (ind_add4 (indent + 4)) in H by lia.
  rewrite <- ?sapp_assoc in H. cancel H. discriminate H.
Qed.

Lemma legacy_text_differs_witness :
  Legacy.serialize global_tdb_init 3 = serialize global_tdb_init 3.
Proof.
  apply (legacy_text_differs global_tdb_init 3); [lia | reflexivity].
Defined.
